(** * outlook_creator.py: identity generation, proxy rotation, account store
    and the worker loop, as a shallow embedding.

  Conventions of the embedding.
  - Python [str] values are [string]; a Python list of one-character
    strings (the password under construction) is a [list ascii].
  - Python dicts with string keys are [gmap string _].
  - The process-wide random source is an explicit stream of draws that is
    threaded through the generators.
  - Files are part of an explicit store state; a missing file is [None].
  - An operation that may raise returns the state it leaves behind together
    with the exception, if any. *)

From Stdlib Require Import ZArith Lia Ascii String.
From stdpp Require Import base option list strings gmap fin_maps pretty.

Open Scope string_scope.
Open Scope list_scope.
Open Scope Z_scope.

(** ** The random source *)

Module Random.

(** The draws still to come; [g 0] is the next one. *)
Definition rng := nat -> nat.

Definition advance (g : rng) : rng := fun i => g (S i).

(** [Random._randbelow(n)]: some index below [n] (for [n > 0]). *)
Definition randbelow (n : nat) (g : rng) : nat * rng :=
  ((g 0%nat mod n)%nat, advance g).

(** [random.choice(seq)] is [seq[randbelow(len(seq))]].  Every call site
    passes a non-empty constant; [d] is only the filler of [nth]. *)
Definition choice {A} (d : A) (seq : list A) (g : rng) : A * rng :=
  let '(i, g') := randbelow (length seq) g in (nth i seq d, g').

(** [random.randint(a, b)] is [a + randbelow(b - a + 1)]. *)
Definition randint (a b : Z) (g : rng) : Z * rng :=
  let '(i, g') := randbelow (Z.to_nat (b - a + 1)) g in (a + Z.of_nat i, g').

(** [x[i], x[j] = x[j], x[i]] *)
Definition swap {A} (x : list A) (i j : nat) : list A :=
  match x !! i, x !! j with
  | Some a, Some b => <[j:=a]> (<[i:=b]> x)
  | _, _ => x
  end.

(** [random.shuffle(x)]:
    [for i in reversed(range(1, len(x))): j = randbelow(i + 1); swap]. *)
Fixpoint shuffle_from {A} (i : nat) (x : list A) (g : rng) : list A * rng :=
  match i with
  | O => (x, g)
  | S i' =>
      let '(j, g') := randbelow (S i) g in
      shuffle_from i' (swap x i j) g'
  end.

Definition shuffle {A} (x : list A) (g : rng) : list A * rng :=
  shuffle_from (length x - 1) x g.

(** [choice for _ in range(n)] *)
Fixpoint choices {A} (d : A) (seq : list A) (n : nat) (g : rng) : list A * rng :=
  match n with
  | O => ([], g)
  | S n' =>
      let '(c, g1) := choice d seq g in
      let '(cs, g2) := choices d seq n' g1 in
      (c :: cs, g2)
  end.

End Random.

(** ** OutlookCreator: the generators *)

Module OutlookCreator.
Import Random.

Definition lowercase : list ascii := list_ascii_of_string "abcdefghijklmnopqrstuvwxyz".
Definition uppercase : list ascii := list_ascii_of_string "ABCDEFGHIJKLMNOPQRSTUVWXYZ".
Definition digits : list ascii := list_ascii_of_string "0123456789".
Definition special : list ascii := list_ascii_of_string "!@#$%^&*()-_=+".
Definition all_chars : list ascii := lowercase ++ uppercase ++ digits ++ special.

Definition filler : ascii := "a"%char.

(** [generate_random_password(length)] up to the final [''.join]:
    [range(remaining_length)] is empty when [remaining_length <= 0]. *)
Definition password_chars (length : Z) (g : rng) : list ascii * rng :=
  let '(c1, g1) := choice filler lowercase g in
  let '(c2, g2) := choice filler uppercase g1 in
  let '(c3, g3) := choice filler digits g2 in
  let '(c4, g4) := choice filler special g3 in
  let password := [c1; c2; c3; c4] in
  let remaining_length := length - Z.of_nat (List.length password) in
  let '(rest, g5) := choices filler all_chars (Z.to_nat remaining_length) g4 in
  shuffle (password ++ rest) g5.

Definition generate_random_password (length : Z) (g : rng) : string * rng :=
  let '(password, g') := password_chars length g in
  (string_of_list_ascii password, g').

Definition is_leap (year : Z) : bool :=
  (((year mod 4 =? 0) && negb (year mod 100 =? 0)) || (year mod 400 =? 0))%bool.

(** [generate_random_birthday()], with [datetime.now().year] as a
    parameter. *)
Definition generate_random_birthday (current_year : Z) (g : rng) : (Z * Z * Z) * rng :=
  let '(year, g1) := randint (current_year - 50) (current_year - 18) g in
  let '(month, g2) := randint 1 12 g1 in
  let '(day, g3) :=
    if bool_decide (month ∈ [4; 6; 9; 11]) then randint 1 30 g2
    else if month =? 2 then
      if is_leap year then randint 1 29 g2 else randint 1 28 g2
    else randint 1 31 g2 in
  ((year, month, day), g3).

(** The character classes of a finished password. *)
Definition has_class (cls : list ascii) (pw : string) : Prop :=
  ∃ c, c ∈ list_ascii_of_string pw ∧ c ∈ cls.

(** The leap rule and the day bound per month, in the words of the
    specification. *)
Definition leap_rule (year : Z) : Prop :=
  ((4 | year) ∧ ¬ (100 | year)) ∨ (400 | year).

Definition spec_day_ok (year month day : Z) : Prop :=
  1 <= day ∧
  ((month = 2 ∧ leap_rule year ∧ day <= 29) ∨
   (month = 2 ∧ ¬ (leap_rule year) ∧ day <= 28) ∨
   (month ∈ [4; 6; 9; 11] ∧ day <= 30) ∨
   ((month ∉ [2; 4; 6; 9; 11]) ∧ day <= 31)).

(** *** The other generators *)

Definition first_names : list string :=
  ["Alex"; "Jamie"; "Jordan"; "Taylor"; "Casey"; "Riley"; "Avery";
   "Quinn"; "Morgan"; "Dakota"; "Reese"; "Emerson"; "Finley"; "Rowan";
   "Skyler"; "Charlie"; "Blake"; "River"; "Sage"; "Phoenix"].

Definition last_names : list string :=
  ["Smith"; "Johnson"; "Williams"; "Brown"; "Jones"; "Garcia"; "Miller";
   "Davis"; "Rodriguez"; "Martinez"; "Hernandez"; "Lopez"; "Gonzalez";
   "Wilson"; "Anderson"; "Thomas"; "Taylor"; "Moore"; "Jackson"; "Martin"].

(** [generate_random_name()] *)
Definition generate_random_name (g : rng) : (string * string) * rng :=
  let '(first_name, g1) := choice "" first_names g in
  let '(last_name, g2) := choice "" last_names g1 in
  ((first_name, last_name), g2).

Definition words : list string :=
  ["cool"; "super"; "awesome"; "tech"; "dev"; "pro"; "star"; "net";
   "web"; "code"; "data"; "info"; "cyber"; "digital"; "smart"].

(** [str.lower] on ASCII text (the names above). *)
Definition lower_char (c : ascii) : ascii :=
  let n := nat_of_ascii c in
  if ((65 <=? n) && (n <=? 90))%nat then ascii_of_nat (n + 32) else c.

Definition lower (s : string) : string :=
  string_of_list_ascii (lower_char <$> list_ascii_of_string s).

(** [generate_random_email()]: a word, a lowered first name and the decimal
    text of a number from 100 to 9999, shuffled and joined. *)
Definition generate_random_email (g : rng) : string * rng :=
  let '(word, g1) := choice "" words g in
  let '((first_name, _), g2) := generate_random_name g1 in
  let '(number, g3) := randint 100 9999 g2 in
  let name_parts := [word; lower first_name; pretty number] in
  let '(shuffled, g4) := shuffle name_parts g3 in
  (String.concat "" shuffled, g4).

(** A text made of characters of [cls] only, between [lo] and [hi] long. *)
Definition text_ok (cls : list ascii) (lo hi : nat) (s : string) : bool :=
  forallb (λ c, bool_decide (c ∈ cls)) (list_ascii_of_string s)
  && (lo <=? String.length s)%nat && (String.length s <=? hi)%nat.

End OutlookCreator.


(** ** Exceptions *)

Inductive exn :=
| KeyError (key : string)
| IndexError
| ValueError.

#[global] Instance exn_eq_dec : EqDecision exn.
Proof. solve_decision. Defined.

(** ** ProxyManager *)

Module ProxyManager.

Record t := { proxies : list string; current_index : nat }.

(** [ProxyManager(proxies)]: [self.proxies = proxies or []], index 0. *)
Definition init (proxies : list string) : t :=
  {| proxies := proxies; current_index := 0 |}.

(** [add_proxy]: [if proxy not in self.proxies: self.proxies.append(proxy)]. *)
Definition add_proxy (proxy : string) (pm : t) : t :=
  if bool_decide (proxy ∈ proxies pm) then pm
  else {| proxies := proxies pm ++ [proxy]; current_index := current_index pm |}.

(** [get_next_proxy]: [None] on an empty pool; otherwise
    [self.proxies[self.current_index]], which raises [IndexError] out of
    range, and the index moves on modulo the pool size. *)
Definition get_next_proxy (pm : t) : (exn + option string) * t :=
  match proxies pm with
  | [] => (inr None, pm)
  | _ =>
      match proxies pm !! current_index pm with
      | None => (inl IndexError, pm)
      | Some proxy =>
          (inr (Some proxy),
           {| proxies := proxies pm;
              current_index := (current_index pm + 1) mod length (proxies pm) |})
      end
  end%nat.

(** [load_from_file]: the stripped non-blank lines replace the pool and the
    index goes back to 0; a file that cannot be read leaves the manager as it
    is and yields 0.  [strip] stands for [str.strip]. *)
Definition load_from_file (strip : string -> string)
    (file : option (list string)) (pm : t) : nat * t :=
  match file with
  | None => (0%nat, pm)
  | Some lines =>
      let proxies := filter (λ l, l ≠ "") (strip <$> lines) in
      (length proxies, {| proxies := proxies; current_index := 0 |})
  end.

(** The states the three operations keep the manager in. *)
Definition wf (pm : t) : Prop :=
  (proxies pm = [] ∧ current_index pm = 0%nat) ∨
  (current_index pm < length (proxies pm))%nat.

(** [n] successive [get_next_proxy] calls; an exception ends the run. *)
Fixpoint take_proxies (n : nat) (pm : t) : list (option string) * t :=
  match n with
  | O => ([], pm)
  | S n' =>
      match get_next_proxy pm with
      | (inl _, pm') => ([], pm')
      | (inr p, pm') =>
          let '(ps, pm'') := take_proxies n' pm' in (p :: ps, pm'')
      end
  end.

(** *** Sequences of operations, and the set-up in [main] *)

Inductive op :=
| Add (proxy : string)
| Next
| Load (file : option (list string)).

Definition do_op (strip : string -> string) (pm : t) (o : op) : t :=
  match o with
  | Add proxy => add_proxy proxy pm
  | Next => (get_next_proxy pm).2
  | Load file => (load_from_file strip file pm).2
  end.

(** [main]: a fresh manager, [add_proxy(args.proxy)] when [--proxy] is
    given and not empty, then [load_from_file(args.proxy_file)] when
    [--proxy-file] is given and not empty.  The file argument is [None]
    when the option is absent or empty, and otherwise the lines of the file,
    or [None] for a file that cannot be read. *)
Definition setup (strip : string -> string) (proxy : option string)
    (proxy_file : option (option (list string))) : t :=
  let pm := init [] in
  let pm :=
    match proxy with
    | Some p => if bool_decide (p ≠ "") then add_proxy p pm else pm
    | None => pm
    end in
  match proxy_file with
  | Some file => (load_from_file strip file pm).2
  | None => pm
  end.

End ProxyManager.

(** ** AccountManager: the account file and the TOTP file

    The account file is kept as the sequence of records [csv.reader] yields
    from it (each a list of fields); quoting and line endings are below this
    model.  The values of an [account_info] dict are kept as the text
    [csv.writer] emits for them.  Only the exceptions the code's own dict and
    csv operations raise are modelled; operating-system I/O errors are not. *)

Module AccountManager.

Definition FIELDNAMES : list string :=
  ["email"; "password"; "first_name"; "last_name";
   "birth_year"; "birth_month"; "birth_day";
   "totp_secret"; "creation_time"; "elapsed_time"].

Record totp_entry := { t_email : string; t_secret : string; t_time : string }.

(** The TOTP file: absent, not decodable as JSON, or the list it holds. *)
Inductive json_file :=
| Missing
| Undecodable
| Entries (data : list totp_entry).

Record store := {
  accounts_file : option (list (list string));
  totp_file : json_file
}.

(** A row as [csv.DictReader] hands it out: the named cells ([None] is the
    reader's [restval]) and, under the reader's [restkey], the surplus
    fields of a record longer than the header. *)
Record rowdict := {
  cells : gmap string (option string);
  rest : option (list string)
}.

(** Truth value of [account_info.get(key)]. *)
Definition truthy (v : option string) : bool :=
  match v with
  | Some s => bool_decide (s ≠ "")
  | None => false
  end.

(** [account_info.get(key, d)] *)
Definition get (info : gmap string string) (key d : string) : string :=
  default d (info !! key).

(** [ensure_files_exist] *)
Definition ensure_files_exist (s : store) : store :=
  {| accounts_file :=
       match accounts_file s with
       | None => Some [FIELDNAMES]
       | Some recs => Some recs
       end;
     totp_file :=
       match totp_file s with
       | Missing => Entries []
       | f => f
       end |}.

(** The store a first [AccountManager()] leaves: both files just created. *)
Definition fresh_store : store :=
  ensure_files_exist {| accounts_file := None; totp_file := Missing |}.

(** [json.load] with [except (JSONDecodeError, FileNotFoundError): []]. *)
Definition read_totp (f : json_file) : list totp_entry :=
  match f with
  | Entries data => data
  | Missing | Undecodable => []
  end.

(** [save_account]: the row is appended (mode ['a'] creates a missing file,
    without a header); a truthy [totp_secret] appends a TOTP entry; the
    closing log line reads [account_info['email']]. *)
Definition save_account (now : string) (info : gmap string string) (s : store)
    : store * option exn :=
  let row :=
    [get info "email" ""; get info "password" "";
     get info "first_name" ""; get info "last_name" "";
     get info "birth_year" ""; get info "birth_month" ""; get info "birth_day" "";
     get info "totp_secret" ""; get info "creation_time" "";
     get info "elapsed_time" ""] in
  let s1 := {| accounts_file := Some (default [] (accounts_file s) ++ [row]);
               totp_file := totp_file s |} in
  if truthy (info !! "totp_secret") then
    match info !! "email" with
    | None => (s1, Some (KeyError "email"))
    | Some email =>
        let totp_info := {| t_email := email;
                            t_secret := get info "totp_secret" "";
                            t_time := get info "creation_time" now |} in
        ({| accounts_file := accounts_file s1;
            totp_file := Entries (read_totp (totp_file s1) ++ [totp_info]) |},
         None)
    end
  else
    match info !! "email" with
    | None => (s1, Some (KeyError "email"))
    | Some _ => (s1, None)
    end.

(** One [DictReader] row: [dict(zip(fieldnames, row))], later duplicates of
    a key winning, short records padded with [restval], long ones keeping
    their tail under [restkey]. *)
Definition zip_row (fieldnames row : list string) : rowdict :=
  let lf := length fieldnames in
  let lr := length row in
  {| cells :=
       foldl (λ d kv, <[kv.1 := kv.2]> d) ∅
         (zip fieldnames ((Some <$> row) ++ replicate (lf - lr) None));
     rest := if (lf <? lr)%nat then Some (drop lf row) else None |}.

(** [csv.DictReader(f)]: the first record is the header, blank records are
    skipped. *)
Definition DictReader (recs : list (list string)) : list rowdict :=
  match recs with
  | [] => []
  | fieldnames :: rows => zip_row fieldnames <$> filter (λ r, r ≠ []) rows
  end.

(** Reading the account file, [except FileNotFoundError] giving no rows. *)
Definition read_accounts (f : option (list (list string))) : list rowdict :=
  match f with
  | None => []
  | Some recs => DictReader recs
  end.

(** [load_accounts] *)
Definition load_accounts (s : store) : list rowdict :=
  read_accounts (accounts_file s).

(** [account[key] = value] *)
Definition setitem (key value : string) (account : rowdict) : rowdict :=
  {| cells := <[key := Some value]> (cells account); rest := rest account |}.

(** The search loop of [update_account]: the first row whose email matches is
    overwritten and the loop breaks; the flag is [updated]. *)
Fixpoint update_loop (info : gmap string string) (accounts : list rowdict)
    : exn + (bool * list rowdict) :=
  match accounts with
  | [] => inr (false, [])
  | account :: accounts' =>
      match cells account !! "email" with
      | None => inl (KeyError "email")
      | Some v =>
          match info !! "email" with
          | None => inl (KeyError "email")
          | Some email =>
              if bool_decide (v = Some email) then
                match info !! "new_password" with
                | None => inl (KeyError "new_password")
                | Some new_password =>
                    let account1 := setitem "password" new_password account in
                    let account2 :=
                      if truthy (info !! "totp_secret")
                      then setitem "totp_secret" (get info "totp_secret" "") account1
                      else account1 in
                    inr (true, account2 :: accounts')
                end
              else
                match update_loop info accounts' with
                | inl e => inl e
                | inr (updated, accounts'') => inr (updated, account :: accounts'')
                end
          end
      end
  end.

(** The minimal row appended when no row matched. *)
Definition new_account (info : gmap string string) : exn + rowdict :=
  match info !! "email" with
  | None => inl (KeyError "email")
  | Some email =>
      match info !! "new_password" with
      | None => inl (KeyError "new_password")
      | Some new_password =>
          inr {| cells :=
                   list_to_map
                     [("email", Some email); ("password", Some new_password);
                      ("first_name", Some ""); ("last_name", Some "");
                      ("birth_year", Some ""); ("birth_month", Some "");
                      ("birth_day", Some "");
                      ("totp_secret", Some (get info "totp_secret" ""));
                      ("creation_time", Some (get info "update_time" ""));
                      ("elapsed_time", Some (get info "elapsed_time" ""))];
                 rest := None |}
      end
  end.

(** [DictWriter._dict_to_list]: a key outside the field names raises
    [ValueError]; a missing key is written as the empty field, and so is
    [None]. *)
Definition dict_to_list (d : rowdict) : exn + list string :=
  if bool_decide (rest d = None ∧ dom (cells d) ⊆ list_to_set FIELDNAMES) then
    inr ((λ key, default "" (cells d !! key ≫= id)) <$> FIELDNAMES)
  else inl ValueError.

(** [DictWriter.writerows]: rows are written one by one, so the rows before
    an offending one are in the file when the exception leaves. *)
Fixpoint writerows (rows : list rowdict) : list (list string) * option exn :=
  match rows with
  | [] => ([], None)
  | d :: rows' =>
      match dict_to_list d with
      | inl e => ([], Some e)
      | inr r => let '(out, e) := writerows rows' in (r :: out, e)
      end
  end.

(** The find-or-append loop over the TOTP entries. *)
Fixpoint update_totp (email secret time : string) (data : list totp_entry)
    : list totp_entry :=
  match data with
  | [] => [{| t_email := email; t_secret := secret; t_time := time |}]
  | totp :: data' =>
      if bool_decide (t_email totp = email)
      then {| t_email := t_email totp; t_secret := secret; t_time := time |} :: data'
      else totp :: update_totp email secret time data'
  end.

(** [update_account]: read all rows, overwrite the first match or append a
    minimal row, write the whole file back, then the same on the TOTP file
    when the change carries a truthy [totp_secret]. *)
Definition update_account (now : string) (info : gmap string string) (s : store)
    : store * option exn :=
  let accounts := read_accounts (accounts_file s) in
  match update_loop info accounts with
  | inl e => (s, Some e)
  | inr (updated, accounts1) =>
      let appended :=
        if updated then inr accounts1
        else match new_account info with
             | inl e => inl e
             | inr d => inr (accounts1 ++ [d])
             end in
      match appended with
      | inl e => (s, Some e)
      | inr accounts2 =>
          let '(out, err) := writerows accounts2 in
          let s1 := {| accounts_file := Some (FIELDNAMES :: out);
                       totp_file := totp_file s |} in
          match err with
          | Some e => (s1, Some e)
          | None =>
              if truthy (info !! "totp_secret") then
                let totp_data :=
                  update_totp (get info "email" "") (get info "totp_secret" "")
                              (get info "update_time" now)
                              (read_totp (totp_file s1)) in
                ({| accounts_file := accounts_file s1;
                    totp_file := Entries totp_data |}, None)
              else (s1, None)
          end
      end
  end.

(** *** The same operations read on the records of a well-formed file

    On a file with the standard header and ten-field records the dict-level
    code above acts on the records as the functions below do; this is proved
    as [update_account_records] and is what the later proofs work with. *)

(** The matched record after the assignments to [password] and
    [totp_secret]. *)
Definition overwrite_record (info : gmap string string) (r : list string)
    : list string :=
  let r1 := <[1%nat := get info "new_password" ""]> r in
  if truthy (info !! "totp_secret")
  then <[7%nat := get info "totp_secret" ""]> r1
  else r1.

(** The record of the minimal row. *)
Definition minimal_record (info : gmap string string) : list string :=
  [get info "email" ""; get info "new_password" ""; ""; ""; ""; ""; "";
   get info "totp_secret" ""; get info "update_time" "";
   get info "elapsed_time" ""].

Fixpoint upsert_records (info : gmap string string) (rows : list (list string))
    : list (list string) :=
  match rows with
  | [] => [minimal_record info]
  | r :: rows' =>
      if bool_decide (r !! 0%nat = info !! "email")
      then overwrite_record info r :: rows'
      else r :: upsert_records info rows'
  end.

(** The records of a file that belong to [email]. *)
Definition records_of (email : string) (rows : list (list string))
    : list (list string) :=
  filter (λ r, r !! 0%nat = Some email) rows.

(** What a row says about its account. *)
Definition row_email (d : rowdict) : option (option string) := cells d !! "email".
Definition row_password (d : rowdict) : option (option string) := cells d !! "password".
Definition row_totp (d : rowdict) : option (option string) := cells d !! "totp_secret".

(** The rows of a collection that belong to [email]. *)
Definition rows_of (email : string) (rows : list rowdict) : list rowdict :=
  filter (λ d, row_email d = Some (Some email)) rows.

(** A store whose account file has the header of [ensure_files_exist] and
    ten fields in every record, as every write of this class leaves it. *)
Definition wf_file (recs : list (list string)) : Prop :=
  ∃ rows, recs = FIELDNAMES :: rows ∧ Forall (λ r, length r = 10%nat) rows.

Definition wf_store (s : store) : Prop :=
  ∃ recs, accounts_file s = Some recs ∧ wf_file recs.

(** *** [export_accounts] *)

(** [account.get(key, '')] on a row: the cell, which may be [None]. *)
Definition row_get (d : rowdict) (key : string) : option string :=
  default (Some "") (cells d !! key).

(** A value as [csv.writer] writes it ([None] as the empty field) and as an
    f-string renders it. *)
Definition csv_text (v : option string) : string := default "" v.
Definition fstring_text (v : option string) : string := default "None" v.

Definition newline : string := String (ascii_of_nat 10) "".

(** What [export_accounts] writes to the output file: the records given to
    [csv.writer], or the texts given to [f.write]. *)
Inductive export_file :=
| CsvFile (records : list (list string))
| TextFile (chunks : list string).

(** [export_accounts(output_file, format_type)]: the content written; the
    function then returns [True].  [str.lower] is taken on ASCII text. *)
Definition export_accounts (format_type : string) (s : store) : export_file :=
  let accounts := load_accounts s in
  if bool_decide (OutlookCreator.lower format_type = "csv") then
    CsvFile (["邮箱"; "密码"; "TOTP密钥"] ::
             ((λ account, [csv_text (row_get account "email");
                           csv_text (row_get account "password");
                           csv_text (row_get account "totp_secret")])
                <$> accounts))
  else
    TextFile ((λ account,
                 fstring_text (row_get account "email") +:+ "—-" +:+
                 fstring_text (row_get account "password") +:+ "—-" +:+
                 fstring_text (row_get account "totp_secret") +:+ newline)
                <$> accounts).

(** *** Sequences of [save_account] and [update_account] calls *)

Inductive call :=
| Save (now : string) (info : gmap string string)
| Update (now : string) (info : gmap string string).

Definition call_info (c : call) : gmap string string :=
  match c with Save _ info | Update _ info => info end.

Definition call_email (c : call) : option string := call_info c !! "email".

(** The password a call writes: [password] of a saved record,
    [new_password] of a change. *)
Definition call_password (c : call) : string :=
  match c with
  | Save _ info => get info "password" ""
  | Update _ info => get info "new_password" ""
  end.

Definition call_totp (c : call) : string := get (call_info c) "totp_secret" "".

(** The keys the callers in this program always provide. *)
Definition call_ok (c : call) : Prop :=
  match c with
  | Save _ info => is_Some (info !! "email")
  | Update _ info => is_Some (info !! "email") ∧ is_Some (info !! "new_password")
  end.

Definition do_call (c : call) (s : store) : store * option exn :=
  match c with
  | Save now info => save_account now info s
  | Update now info => update_account now info s
  end.

(** The calls in order; the exceptions raised on the way are collected. *)
Definition run_calls (calls : list call) (s : store) : store * list exn :=
  foldl (λ '(s, raised) c,
           let '(s', e) := do_call c s in (s', raised ++ option_list e))
        (s, []) calls.

(** In the words of the specification: the most recent password and the
    most recent non-empty totp_secret written for an email. *)
Definition calls_for (email : string) (calls : list call) : list call :=
  filter (λ c, call_email c = Some email) calls.

Definition last_password (calls : list call) (email : string) : option string :=
  call_password <$> last (calls_for email calls).

Definition last_totp (calls : list call) (email : string) : string :=
  default "" (last (filter (λ t, t ≠ "") (call_totp <$> calls_for email calls))).

(** Sample inputs, shaped as [create_outlook_account] and
    [change_password] return them. *)
Definition sample_record (email password totp_secret : string)
    : gmap string string :=
  list_to_map
    [("email", email); ("password", password);
     ("first_name", "Alex"); ("last_name", "Smith");
     ("birth_year", "1990"); ("birth_month", "2"); ("birth_day", "28");
     ("totp_secret", totp_secret);
     ("creation_time", "2025-01-01 10:00:00"); ("elapsed_time", "12.5")].

Definition sample_change (email new_password totp_secret : string)
    : gmap string string :=
  list_to_map
    [("email", email); ("old_password", "old"); ("new_password", new_password);
     ("totp_secret", totp_secret);
     ("update_time", "2025-01-02 10:00:00"); ("elapsed_time", "20.1")].

Definition sample_no_email : gmap string string := {[ "password" := "pw" ]}.
Definition sample_no_password : gmap string string :=
  {[ "email" := "a@outlook.com" ]}.

Definition sample_rows : list (list string) :=
  [["a@outlook.com"; "p1"; "Alex"; "Smith"; "1990"; "2"; "28"; "";
    "2025-01-01 10:00:00"; "12.5"]].

Definition sample_store : store :=
  {| accounts_file := Some (FIELDNAMES :: sample_rows); totp_file := Entries [] |}.

(** A file whose second record has a surplus field. *)
Definition sample_long : list string :=
  ["b@outlook.com"; "p2"; "Jamie"; "Brown"; "1991"; "3"; "30"; "";
   "2025-01-01 11:00:00"; "2.5"; "surplus"].

Definition sample_last : list string :=
  ["c@outlook.com"; "p3"; "Riley"; "Jones"; "1992"; "4"; "30"; "";
   "2025-01-01 12:00:00"; "3.5"].

Definition sample_long_store : store :=
  {| accounts_file := Some (FIELDNAMES :: sample_rows ++ sample_long :: [sample_last]);
     totp_file := Entries [] |}.

Definition sample_calls : list call :=
  [Save "t1" (sample_record "a@outlook.com" "p1" "");
   Update "t2" (sample_change "a@outlook.com" "p2" "SECRET");
   Update "t3" (sample_change "b@outlook.com" "q1" "");
   Update "t4" (sample_change "a@outlook.com" "p3" "")].

(** No [Save] is given an email that an earlier call already wrote. *)
Definition saves_fresh (calls : list call) : Prop :=
  ∀ i now info, calls !! i = Some (Save now info) ->
    Forall (λ c, call_email c ≠ info !! "email") (take i calls).

(** What the store holds after a run, record by record. *)
Definition history_inv (calls : list call) (rows : list (list string)) : Prop :=
  Forall (λ r, length r = 10%nat) rows ∧
  ∀ e,
    match last_password calls e with
    | None => records_of e rows = []
    | Some p =>
        ∃ r, records_of e rows = [r] ∧ r !! 1%nat = Some p ∧
             r !! 7%nat = Some (last_totp calls e)
    end.

End AccountManager.

(** ** The create-account job and the worker loop of [create_accounts]

    The browser is outside the program.  What it does during one job is an
    input of the model: whether the WebDriver starts, whether a step of the
    signup flow raises, whether a step of the TOTP page raises, and the
    clock readings.  [driver.quit()] is taken not to raise. *)

Module Job.
Import AccountManager.

(** The values drawn by the four generators at the start of a job, the
    integers as their decimal text. *)
Record identity := {
  email_name : string;
  password : string;
  first_name : string;
  last_name : string;
  birth_year : string;
  birth_month : string;
  birth_day : string
}.

Record run := {
  driver_start : option string;   (* [Some text]: [webdriver.Chrome] raises *)
  ident : identity;
  creation_time : string;
  signup : option string;         (* [Some text]: a signup step raises *)
  totp_page : string + string;    (* the secret drawn, or the text of the
                                     exception a step of the page raises *)
  elapsed_time : string;          (* [time.time() - start_time], as text *)
  save_time : string              (* the clock when [save_account] runs *)
}.

(** [bind_totp]: any exception inside is logged and turned into [""]. *)
Definition bind_totp (page : string + string) : string :=
  match page with
  | inl totp_secret => totp_secret
  | inr _ => ""
  end.

(** [create_outlook_account]: the dict [self.current_account] it returns. *)
Definition create_outlook_account (r : run) : gmap string string :=
  let current_account : gmap string string :=
    list_to_map
      [("email", email_name (ident r) +:+ "@outlook.com");
       ("password", password (ident r));
       ("first_name", first_name (ident r));
       ("last_name", last_name (ident r));
       ("birth_year", birth_year (ident r));
       ("birth_month", birth_month (ident r));
       ("birth_day", birth_day (ident r));
       ("totp_secret", "");
       ("creation_time", creation_time r)] in
  match signup r with
  | Some text =>
      <["elapsed_time" := elapsed_time r]> (<["error" := text]> current_account)
  | None =>
      let totp_secret := bind_totp (totp_page r) in
      <["elapsed_time" := elapsed_time r]>
        (<["totp_secret" := totp_secret]> current_account)
  end.

(** The record [save_account] appends for a job that returned without an
    error. *)
Definition saved_record (r : run) : list string :=
  [email_name (ident r) +:+ "@outlook.com"; password (ident r);
   first_name (ident r); last_name (ident r);
   birth_year (ident r); birth_month (ident r); birth_day (ident r);
   bind_totp (totp_page r); creation_time r; elapsed_time r].

(** Life of the browser sessions, in program order. *)
Inductive event :=
| DriverStarted (proxy : option string)
| DriverQuit.

#[global] Instance event_eq_dec : EqDecision event.
Proof. solve_decision. Defined.

Record world := {
  proxy_manager : ProxyManager.t;
  files : store;
  result_queue : list (gmap string string);
  drivers : list event
}.

Definition put (result : gmap string string) (w : world) : world :=
  {| proxy_manager := proxy_manager w; files := files w;
     result_queue := result_queue w ++ [result]; drivers := drivers w |}.

Definition log (e : event) (w : world) : world :=
  {| proxy_manager := proxy_manager w; files := files w;
     result_queue := result_queue w; drivers := drivers w ++ [e] |}.

Section Worker.

(** [str(e)] *)
Variable str : exn -> string.

(** The body of the worker loop for one dequeued task. *)
Definition worker_job (r : run) (w : world) : world :=
  let '(proxy, pm) := ProxyManager.get_next_proxy (proxy_manager w) in
  let w := {| proxy_manager := pm; files := files w;
              result_queue := result_queue w; drivers := drivers w |} in
  match proxy with
  | inl e => put {[ "error" := str e ]} w
  | inr proxy =>
      match driver_start r with
      | Some text => put {[ "error" := text ]} w
      | None =>
          let w := log (DriverStarted proxy) w in
          let account_info := create_outlook_account r in
          let '(files', raised) :=
            if bool_decide (account_info !! "error" = None)
            then save_account (save_time r) account_info (files w)
            else (files w, None) in
          let w := {| proxy_manager := proxy_manager w; files := files';
                      result_queue := result_queue w; drivers := drivers w |} in
          match raised with
          | None => log DriverQuit (put account_info w)
          | Some e => put {[ "error" := str e ]} (log DriverQuit w)
          end
      end
  end.

(** One worker draining the queue on its own. *)
Fixpoint worker (env : nat -> run) (task_queue : list nat) (w : world) : world :=
  match task_queue with
  | [] => w
  | task_id :: task_queue' => worker env task_queue' (worker_job (env task_id) w)
  end.

End Worker.

(** Sample inputs. *)
Definition sample_identity : identity :=
  {| email_name := "coolalex123"; password := "aB3!efghijkl";
     first_name := "Alex"; last_name := "Smith";
     birth_year := "1990"; birth_month := "2"; birth_day := "28" |}.

Definition sample_run (signup : option string) (totp_page : string + string)
    : run :=
  {| driver_start := None; ident := sample_identity;
     creation_time := "2025-01-01 10:00:00";
     signup := signup; totp_page := totp_page;
     elapsed_time := "12.5"; save_time := "2025-01-01 10:00:13" |}.

Definition sample_no_driver : run :=
  {| driver_start := Some "SessionNotCreatedException";
     ident := sample_identity; creation_time := "2025-01-01 10:00:00";
     signup := None; totp_page := inl "JBSWY3DP";
     elapsed_time := "0.5"; save_time := "2025-01-01 10:00:01" |}.

Definition sample_world : world :=
  {| proxy_manager := ProxyManager.init ["h1:1080"; "h2:1080"];
     files := fresh_store; result_queue := []; drivers := [] |}.

(** Every second job of the sample batch meets a timeout in the signup
    flow. *)
Definition sample_env (task_id : nat) : run :=
  if Nat.even task_id then sample_run (Some "TimeoutException") (inl "JBSWY3DP")
  else sample_run None (inl "JBSWY3DP").

Definition sample_str (e : exn) : string :=
  match e with
  | KeyError key => "'" +:+ key +:+ "'"
  | IndexError => "list index out of range"
  | ValueError => "dict contains fields not in fieldnames"
  end.

(** Sessions started and ended so far. *)
Definition started (l : list event) : nat :=
  length (filter (λ e, e ≠ DriverQuit) l).
Definition quit (l : list event) : nat :=
  length (filter (λ e, e = DriverQuit) l).

(** *** [create_accounts] with one worker thread *)

(** The result the worker queues for a job whose proxy allocation went
    well: the error of the WebDriver start, or the account the procedure
    returns. *)
Definition job_result (r : run) : gmap string string :=
  match driver_start r with
  | Some text => {[ "error" := text ]}
  | None => create_outlook_account r
  end.

(** The jobs whose account is saved. *)
Definition job_saved (r : run) : Prop := driver_start r = None ∧ signup r = None.

#[global] Instance job_saved_dec (r : run) : Decision (job_saved r).
Proof. unfold job_saved. apply _. Defined.

(** [sum(1 for r in results if "error" not in r)] *)
Definition success_count (results : list (gmap string string)) : nat :=
  length (filter (λ res, res !! "error" = None) results).

(** [create_accounts(count, proxy_manager, threads=1)]: the account
    manager is built (and the files ensured), the one worker drains the
    queue, the result queue is emptied into the list that is returned. *)
Definition create_accounts (str : exn -> string) (env : nat -> run)
    (count : nat) (pm : ProxyManager.t) (s : store)
    : list (gmap string string) * world :=
  let w := {| proxy_manager := pm; files := ensure_files_exist s;
              result_queue := []; drivers := [] |} in
  let w' := worker str env (seq 0 count) w in
  (result_queue w', w').

(** *** The change-password job and the worker of [change_passwords] *)

Record change_run := {
  c_driver_start : option string;  (* [Some text]: [webdriver.Chrome] raises *)
  c_draws : Random.rng;            (* the random source when the worker draws
                                      the new password *)
  c_inner_draws : Random.rng;      (* the random source inside
                                      [change_password], used without an
                                      explicit new password *)
  c_update_time : string;
  c_steps : option string;         (* [Some text]: a login or change step raises *)
  c_totp_page : string + string;
  c_elapsed_time : string;
  c_write_time : string            (* the clock when [update_account] runs *)
}.

(** [bind_totp] as a method of the creator: its first statement reads
    [self.current_account['email']] for the log line; on a creator whose
    [current_account] has no such key that raises [KeyError], which the
    [except] of [bind_totp] turns into [""] before the page is opened. *)
Definition bind_totp_on (current_account : gmap string string)
    (page : string + string) : string :=
  match current_account !! "email" with
  | None => ""
  | Some _ => bind_totp page
  end.

(** [change_password(email, old_password, new_password)] on a creator
    whose [self.current_account] is [current_account]; the method does not
    assign to it. *)
Definition change_password (current_account : gmap string string)
    (email old_password : string)
    (new_password : option string) (r : change_run) : gmap string string :=
  let new_password :=
    match new_password with
    | None => (OutlookCreator.generate_random_password 12 (c_inner_draws r)).1
    | Some p => p
    end in
  let account_info : gmap string string :=
    list_to_map
      [("email", email); ("old_password", old_password);
       ("new_password", new_password); ("totp_secret", "");
       ("update_time", c_update_time r)] in
  match c_steps r with
  | Some text =>
      <["elapsed_time" := c_elapsed_time r]> (<["error" := text]> account_info)
  | None =>
      let totp_secret := bind_totp_on current_account (c_totp_page r) in
      <["elapsed_time" := c_elapsed_time r]>
        (<["totp_secret" := totp_secret]> account_info)
  end.

(** The body of the worker loop of [change_passwords] for one dequeued
    account (a dict with string values).  The creator is built for the job,
    so its [current_account] is the [{}] of [__init__] when
    [change_password] runs.  The handler of the outer [except] reads
    [account["email"]] again; when that key is missing the handler itself
    raises and the exception leaves the worker: it is returned. *)
Definition worker_change_job (str : exn -> string)
    (account : gmap string string) (r : change_run) (w : world)
    : world * option exn :=
  let handler (e : string) (w : world) : world * option exn :=
    match account !! "email" with
    | None => (w, Some (KeyError "email"))
    | Some email => (put (<["error" := e]> {[ "email" := email ]}) w, None)
    end in
  let '(proxy, pm) := ProxyManager.get_next_proxy (proxy_manager w) in
  let w := {| proxy_manager := pm; files := files w;
              result_queue := result_queue w; drivers := drivers w |} in
  match proxy with
  | inl e => handler (str e) w
  | inr proxy =>
      match c_driver_start r with
      | Some text => handler text w
      | None =>
          let w := log (DriverStarted proxy) w in
          let new_password :=
            (OutlookCreator.generate_random_password 12 (c_draws r)).1 in
          match account !! "email" with
          | None => handler (str (KeyError "email")) (log DriverQuit w)
          | Some email =>
              match account !! "password" with
              | None => handler (str (KeyError "password")) (log DriverQuit w)
              | Some old_password =>
                  let account_info :=
                    change_password ∅ email old_password (Some new_password) r in
                  let '(files', raised) :=
                    if bool_decide (account_info !! "error" = None)
                    then update_account (c_write_time r) account_info (files w)
                    else (files w, None) in
                  let w := {| proxy_manager := proxy_manager w; files := files';
                              result_queue := result_queue w;
                              drivers := drivers w |} in
                  match raised with
                  | None => (log DriverQuit (put account_info w), None)
                  | Some e => handler (str e) (log DriverQuit w)
                  end
              end
          end
      end
  end.

(** *** The worker threads of a batch

    [create_accounts] and [change_passwords] run the same loop
    [while not task_queue.empty(): try: task = task_queue.get() ...] in
    [min(threads, number of tasks)] threads and differ in its body. *)

(** Where a worker thread stands. *)
Inductive position :=
| AtTest        (* about to evaluate [task_queue.empty()] *)
| AtGet         (* found the queue non-empty, about to call [get()] *)
| Returned      (* found the queue empty and left the loop *)
| Raised.       (* an exception left the worker function: the thread ended *)

#[global] Instance position_eq_dec : EqDecision position.
Proof. solve_decision. Defined.

Record pool (task : Type) := {
  task_queue : list task;
  threads : list position;
  shared : world
}.
Arguments task_queue {task} _.
Arguments threads {task} _.
Arguments shared {task} _.

(** Where a thread stands after the body of the loop. *)
Definition after (raised : option exn) : position :=
  match raised with
  | None => AtTest
  | Some _ => Raised
  end.

Section Pool.
Context {task : Type}.

(** The body of the loop for one dequeued task: the shared objects after
    it, and the exception that leaves the worker function, if any. *)
Variable job : task -> world -> world * option exn.

(** The next move of thread [i], if it has one.  A thread at [AtGet] with
    an empty queue is blocked in [get()]; a thread that has ended does not
    move.  The body of one job is taken as one move: its effects on the
    shared objects are each under a lock or on a thread-safe queue. *)
Definition thread_step (i : nat) (p : pool task) : option (pool task) :=
  match threads p !! i with
  | Some AtTest =>
      let pos := match task_queue p with [] => Returned | _ => AtGet end in
      Some {| task_queue := task_queue p;
              threads := <[i := pos]> (threads p);
              shared := shared p |}
  | Some AtGet =>
      match task_queue p with
      | [] => None
      | t :: rest =>
          Some {| task_queue := rest;
                  threads := <[i := after (job t (shared p)).2]> (threads p);
                  shared := (job t (shared p)).1 |}
      end
  | _ => None
  end.

(** Interleavings of the worker threads. *)
Inductive step : pool task -> pool task -> Prop :=
| step_empty i p :
    threads p !! i = Some AtTest ->
    task_queue p = [] ->
    step p {| task_queue := task_queue p;
              threads := <[i := Returned]> (threads p);
              shared := shared p |}
| step_nonempty i p :
    threads p !! i = Some AtTest ->
    task_queue p ≠ [] ->
    step p {| task_queue := task_queue p;
              threads := <[i := AtGet]> (threads p);
              shared := shared p |}
| step_job i p t rest :
    threads p !! i = Some AtGet ->
    task_queue p = t :: rest ->
    step p {| task_queue := rest;
              threads := <[i := after (job t (shared p)).2]> (threads p);
              shared := (job t (shared p)).1 |}.

Inductive steps : pool task -> pool task -> Prop :=
| steps_refl p : steps p p
| steps_step p q r : steps p q -> step q r -> steps p r.

(** The pool after the threads named in [schedule] have moved in that
    order. *)
Fixpoint run_schedule (schedule : list nat) (p : pool task)
    : option (pool task) :=
  match schedule with
  | [] => Some p
  | i :: schedule' =>
      match thread_step i p with
      | Some q => run_schedule schedule' q
      | None => None
      end
  end.

End Pool.

(** Every thread has ended: the [t.join()] loop of the dispatcher is
    through and the results are collected. *)
Definition joined {task : Type} (p : pool task) : bool :=
  forallb (λ pos, bool_decide (pos = Returned ∨ pos = Raised)) (threads p).

(** The loop body of [create_accounts.worker]; its outer handler queues a
    dict and raises nothing. *)
Definition create_job (str : exn -> string) (env : nat -> run)
    (task_id : nat) (w : world) : world * option exn :=
  (worker_job str (env task_id) w, None).

(** [create_accounts] before the threads start: [range(count)] queued,
    [min(threads, count)] workers.  The number of threads asked for is not
    checked: with [0] (or less, which starts as many threads as [0]) no
    worker is started. *)
Definition start (count n_threads : nat) (w : world) : pool nat :=
  {| task_queue := seq 0 count;
     threads := replicate (n_threads `min` count) AtTest;
     shared := w |}.

(** The loop body of [change_passwords.worker].  A queued account is
    paired with its position in the batch, by which the browser's
    behaviour during its job is looked up. *)
Definition change_job (str : exn -> string) (env : nat -> change_run)
    (task : nat * gmap string string) (w : world) : world * option exn :=
  worker_change_job str task.2 (env task.1) w.

(** [change_passwords] before the threads start: the accounts queued,
    [min(threads, len(accounts))] workers. *)
Definition start_change (accounts : list (gmap string string))
    (n_threads : nat) (w : world) : pool (nat * gmap string string) :=
  {| task_queue := zip (seq 0 (length accounts)) accounts;
     threads := replicate (n_threads `min` length accounts) AtTest;
     shared := w |}.



(** Sample inputs. *)
Definition sample_change_run (steps : option string) (page : string + string)
    : change_run :=
  {| c_driver_start := None; c_draws := λ i, (7 * i + 2)%nat;
     c_inner_draws := λ i, i;
     c_update_time := "2025-01-02 10:00:00"; c_steps := steps;
     c_totp_page := page; c_elapsed_time := "20.1";
     c_write_time := "2025-01-02 10:00:21" |}.

Definition sample_account : gmap string string :=
  list_to_map [("email", "a@outlook.com"); ("password", "p1")].

Definition sample_change_world : world :=
  {| proxy_manager := ProxyManager.init ["h1:1080"; "h2:1080"];
     files := sample_store; result_queue := []; drivers := [] |}.

(** A batch of two accounts; the job of the second one meets a timeout in
    the login steps. *)
Definition sample_accounts : list (gmap string string) :=
  [sample_account;
   list_to_map [("email", "b@outlook.com"); ("password", "q1")]].

Definition sample_change_env (i : nat) : change_run :=
  if Nat.even i then sample_change_run None (inl "JBSWY3DP")
  else sample_change_run (Some "TimeoutException") (inl "JBSWY3DP").

(** Two threads taking turns until both have left the loop. *)
Definition sample_schedule : list nat := [0; 1; 0; 1; 0; 0; 1; 1; 0; 1]%nat.
Definition sample_change_schedule : list nat := [0; 1; 1; 0; 0; 1]%nat.

End Job.

(** * Properties *)

(** ** The random source *)

Section RandomFacts.
Import Random.
Context {A : Type}.
Implicit Types (x seq : list A) (g : rng).

Lemma randbelow_lt n g : (0 < n)%nat -> ((randbelow n g).1 < n)%nat.
Proof. intros Hn. simpl. apply Nat.mod_upper_bound. lia. Qed.

Lemma choice_elem_of (d : A) seq g : seq ≠ [] -> (choice d seq g).1 ∈ seq.
Proof.
  intros Hne. unfold choice.
  pose proof (randbelow_lt (length seq) g) as Hlt.
  destruct (randbelow (length seq) g) as [i g'] eqn:E. simpl in *.
  apply list_elem_of_In, nth_In, Hlt.
  destruct seq; [done | simpl; lia].
Qed.

Lemma choices_length (d : A) seq n g : length (choices d seq n g).1 = n.
Proof.
  revert g. induction n as [|n IH]; intros g; [done|].
  cbn [choices]. destruct (choice d seq g) as [c g1].
  specialize (IH g1). destruct (choices d seq n g1) as [cs g2].
  simpl in *. by rewrite IH.
Qed.

Lemma swap_length x i j : length (swap x i j) = length x.
Proof.
  unfold swap. destruct (x !! i), (x !! j); try done.
  by rewrite !length_insert.
Qed.

Lemma swap_lookup x i j k :
  (i < length x)%nat -> (j < length x)%nat ->
  swap x i j !! k =
    x !! (if decide (k = j) then i else if decide (k = i) then j else k).
Proof.
  intros Hi Hj. unfold swap.
  destruct (lookup_lt_is_Some_2 x i Hi) as [a Ha].
  destruct (lookup_lt_is_Some_2 x j Hj) as [b Hb].
  rewrite Ha, Hb.
  destruct (decide (k = j)) as [->|Hkj].
  - rewrite list_lookup_insert_eq; [done | by rewrite length_insert].
  - rewrite list_lookup_insert_ne by done.
    destruct (decide (k = i)) as [->|Hki].
    + by rewrite list_lookup_insert_eq.
    + by rewrite list_lookup_insert_ne.
Qed.

Lemma swap_elem_of x i j c : c ∈ swap x i j ↔ c ∈ x.
Proof.
  destruct (decide (i < length x)%nat) as [Hi|Hi];
    [destruct (decide (j < length x)%nat) as [Hj|Hj]|].
  - rewrite !list_elem_of_lookup. split; intros [k Hk].
    + rewrite swap_lookup in Hk by done. eauto.
    + exists (if decide (k = j) then i else if decide (k = i) then j else k).
      rewrite swap_lookup by done.
      repeat case_decide; subst; try done.
  - unfold swap. rewrite (lookup_ge_None_2 x j) by lia. by destruct (x !! i).
  - unfold swap. by rewrite (lookup_ge_None_2 x i) by lia.
Qed.

Lemma shuffle_from_length i x g : length (shuffle_from i x g).1 = length x.
Proof.
  revert x g. induction i as [|i IH]; intros x g; [done|].
  simpl. rewrite IH. apply swap_length.
Qed.

Lemma shuffle_from_elem_of i x g c : c ∈ (shuffle_from i x g).1 ↔ c ∈ x.
Proof.
  revert x g. induction i as [|i IH]; intros x g; [done|].
  simpl. rewrite IH. apply swap_elem_of.
Qed.

Lemma shuffle_length x g : length (shuffle x g).1 = length x.
Proof. apply shuffle_from_length. Qed.

Lemma shuffle_elem_of x g c : c ∈ (shuffle x g).1 ↔ c ∈ x.
Proof. apply shuffle_from_elem_of. Qed.

End RandomFacts.

Lemma randint_bounds a b g :
  a <= b -> a <= (Random.randint a b g).1 <= b.
Proof.
  intros Hab. unfold Random.randint.
  pose proof (randbelow_lt (Z.to_nat (b - a + 1)) g) as Hlt.
  destruct (Random.randbelow (Z.to_nat (b - a + 1)) g) as [i g'].
  simpl in *. lia.
Qed.

(** ** The generators *)

Section Generators.
Import Random OutlookCreator.

Lemma string_of_list_ascii_length (l : list ascii) :
  String.length (string_of_list_ascii l) = length l.
Proof. induction l as [|c l IH]; [done | simpl; by rewrite IH]. Qed.

(** The four leading draws are in their classes and survive the shuffle;
    the list has four characters plus the filling. *)
Lemma password_chars_spec (n : Z) (g : rng) :
  let pw := (password_chars n g).1 in
  length pw = (4 + Z.to_nat (n - 4))%nat ∧
  (∃ c, c ∈ pw ∧ c ∈ lowercase) ∧ (∃ c, c ∈ pw ∧ c ∈ uppercase) ∧
  (∃ c, c ∈ pw ∧ c ∈ digits) ∧ (∃ c, c ∈ pw ∧ c ∈ special).
Proof.
  unfold password_chars.
  pose proof (choice_elem_of filler lowercase g) as H1.
  destruct (choice filler lowercase g) as [c1 g1].
  pose proof (choice_elem_of filler uppercase g1) as H2.
  destruct (choice filler uppercase g1) as [c2 g2].
  pose proof (choice_elem_of filler digits g2) as H3.
  destruct (choice filler digits g2) as [c3 g3].
  pose proof (choice_elem_of filler special g3) as H4.
  destruct (choice filler special g3) as [c4 g4].
  pose proof (choices_length filler all_chars
                (Z.to_nat (n - Z.of_nat (length [c1; c2; c3; c4]))) g4) as Hlen.
  destruct (choices filler all_chars _ g4) as [rest g5].
  cbn [fst] in *. cbv zeta.
  split; [rewrite shuffle_length, length_app, Hlen; simpl; lia|].
  repeat split.
  - exists c1. rewrite shuffle_elem_of. split; [set_solver | by apply H1].
  - exists c2. rewrite shuffle_elem_of. split; [set_solver | by apply H2].
  - exists c3. rewrite shuffle_elem_of. split; [set_solver | by apply H3].
  - exists c4. rewrite shuffle_elem_of. split; [set_solver | by apply H4].
Qed.

Lemma generate_random_password_spec (n : Z) (g : rng) :
  let pw := (generate_random_password n g).1 in
  Z.of_nat (String.length pw) = Z.max n 4 ∧
  has_class lowercase pw ∧ has_class uppercase pw ∧
  has_class digits pw ∧ has_class special pw.
Proof.
  pose proof (password_chars_spec n g) as (Hlen & Hl & Hu & Hd & Hs).
  unfold generate_random_password, has_class.
  destruct (password_chars n g) as [pw g']. cbn [fst] in *.
  rewrite string_of_list_ascii_length, list_ascii_of_string_of_list_ascii.
  split; [lia | done].
Qed.

(** C5: a password generated for a requested length of at least 4 has
    exactly that length and holds a lowercase letter, an uppercase letter, a
    digit and a symbol. *)
Theorem generate_random_password_length_classes (n : Z) (g : rng) :
  4 <= n ->
  let pw := (generate_random_password n g).1 in
  Z.of_nat (String.length pw) = n ∧
  has_class lowercase pw ∧ has_class uppercase pw ∧
  has_class digits pw ∧ has_class special pw.
Proof.
  intros Hn. pose proof (generate_random_password_spec n g) as [Hlen Hcls].
  split; [cbv zeta in Hlen; lia | exact Hcls].
Qed.

Lemma generate_random_password_length_classes_witness :
  4 <= 12 ∧
  let pw := (generate_random_password 12 (λ i, (5 * i + 3)%nat)).1 in
  Z.of_nat (String.length pw) = 12 ∧
  has_class lowercase pw ∧ has_class uppercase pw ∧
  has_class digits pw ∧ has_class special pw.
Proof.
  split; [lia|].
  apply (generate_random_password_length_classes 12 (λ i, (5 * i + 3)%nat)). lia.
Defined.

(** C9: for a requested length below 4 (zero and negative lengths
    included) the password has exactly 4 characters, one of each class at
    least; for every requested length the output has [max(length, 4)]
    characters. *)
Theorem generate_random_password_short_request (n : Z) (g : rng) :
  n < 4 ->
  let pw := (generate_random_password n g).1 in
  String.length pw = 4%nat ∧
  has_class lowercase pw ∧ has_class uppercase pw ∧
  has_class digits pw ∧ has_class special pw ∧
  ∀ (m : Z) (g' : rng),
    Z.of_nat (String.length (generate_random_password m g').1) = Z.max m 4.
Proof.
  intros Hn.
  pose proof (generate_random_password_spec n g) as (Hlen & Hl & Hu & Hd & Hs).
  cbv zeta in *. repeat split; try done; [lia|].
  intros m g'. apply (generate_random_password_spec m g').
Qed.

Lemma generate_random_password_short_request_witness :
  -3 < 4 ∧
  let pw := (generate_random_password (-3) (λ i, (5 * i + 3)%nat)).1 in
  String.length pw = 4%nat ∧
  has_class lowercase pw ∧ has_class uppercase pw ∧
  has_class digits pw ∧ has_class special pw ∧
  ∀ (m : Z) (g' : rng),
    Z.of_nat (String.length (generate_random_password m g').1) = Z.max m 4.
Proof.
  split; [lia|].
  apply (generate_random_password_short_request (-3) (λ i, (5 * i + 3)%nat)). lia.
Defined.

Lemma is_leap_rule (year : Z) : is_leap year = true ↔ leap_rule year.
Proof.
  unfold is_leap, leap_rule.
  rewrite orb_true_iff, andb_true_iff, negb_true_iff, !Z.eqb_eq, Z.eqb_neq.
  rewrite <- !Z.mod_divide by lia. tauto.
Qed.

(** C6: the birth year lies in [current_year - 50, current_year - 18], so
    the age by year is between 18 and 50; the month is a month; and the day
    is at least 1 and at most the bound of its month: 29 or 28 for February
    by the leap rule, 30 for April, June, September and November, 31 for the
    other months. *)
Theorem generate_random_birthday_bounds (current_year : Z) (g : rng) :
  let '(year, month, day) := (generate_random_birthday current_year g).1 in
  current_year - 50 <= year <= current_year - 18 ∧
  18 <= current_year - year <= 50 ∧
  1 <= month <= 12 ∧
  spec_day_ok year month day.
Proof.
  unfold generate_random_birthday.
  pose proof (randint_bounds (current_year - 50) (current_year - 18) g) as Hy.
  destruct (randint (current_year - 50) (current_year - 18) g) as [year g1].
  pose proof (randint_bounds 1 12 g1) as Hm.
  destruct (randint 1 12 g1) as [month g2].
  pose proof (randint_bounds 1 30 g2) as H30.
  pose proof (randint_bounds 1 29 g2) as H29.
  pose proof (randint_bounds 1 28 g2) as H28.
  pose proof (randint_bounds 1 31 g2) as H31.
  cbn [fst] in *. unfold spec_day_ok.
  pose proof (is_leap_rule year) as Hleap.
  case_bool_decide as Hin.
  - destruct (randint 1 30 g2) as [day g3]. cbn [fst] in *.
    repeat split; try lia. right; right; left. split; [done | lia].
  - destruct (Z.eqb_spec month 2) as [->|Hne].
    + destruct (is_leap year).
      * destruct (randint 1 29 g2) as [day g3]. cbn [fst] in *.
        repeat split; try lia. left. repeat split; [by apply Hleap | lia].
      * destruct (randint 1 28 g2) as [day g3]. cbn [fst] in *.
        repeat split; try lia. right; left.
        repeat split; [intros HH; by apply Hleap in HH | lia].
    + destruct (randint 1 31 g2) as [day g3]. cbn [fst] in *.
      repeat split; try lia. right; right; right.
      split; [|lia]. rewrite elem_of_cons. intros [?|?]; done.
Qed.

End Generators.

(** ** ProxyManager *)

Section ProxyFacts.
Import ProxyManager.
Implicit Types (pm : t) (proxy : string).

Lemma wf_init proxies : wf (init proxies).
Proof. unfold wf. destruct proxies; simpl; [by left | right; lia]. Qed.

Lemma wf_add_proxy proxy pm : wf pm -> wf (add_proxy proxy pm).
Proof.
  unfold wf, add_proxy. intros Hwf. case_bool_decide; [done|].
  right. simpl. rewrite length_app. simpl.
  destruct Hwf as [[_ ->]|Hlt]; lia.
Qed.

Lemma wf_load_from_file strip file pm :
  wf pm -> wf (load_from_file strip file pm).2.
Proof.
  intros Hwf. destruct file as [lines|]; [|done].
  simpl. apply (wf_init (filter _ _)).
Qed.

Lemma wf_get_next_proxy pm : wf pm -> wf (get_next_proxy pm).2.
Proof.
  destruct pm as [ps i]. unfold wf, get_next_proxy. cbn [proxies current_index].
  intros Hwf. destruct ps as [|p ps]; [done|].
  destruct ((p :: ps) !! i) eqn:Hl; cbn [snd proxies current_index]; [|done].
  right. apply Nat.mod_upper_bound. done.
Qed.

Lemma get_next_proxy_nonempty pm :
  wf pm -> proxies pm ≠ [] ->
  ∃ proxy, proxies pm !! current_index pm = Some proxy ∧
    get_next_proxy pm =
      (inr (Some proxy),
       {| proxies := proxies pm;
          current_index := (current_index pm + 1) `mod` length (proxies pm) |}).
Proof.
  intros [[Hnil _]|Hlt] Hne; [done|].
  destruct (lookup_lt_is_Some_2 _ _ Hlt) as [proxy Hp].
  exists proxy. split; [done|]. unfold get_next_proxy. rewrite Hp.
  by destruct (proxies pm).
Qed.

(** C4: on an empty pool [get_next_proxy] returns [None] and changes
    nothing; otherwise it returns the endpoint at the cursor and moves the
    cursor on by one modulo the pool size; and from the pool [a, b, c] seven
    calls in a row return a, b, c, a, b, c, a. *)
Theorem get_next_proxy_round_robin pm (a b c : string) :
  wf pm ->
  match proxies pm with
  | [] => get_next_proxy pm = (inr None, pm)
  | _ :: _ =>
      ∃ proxy, proxies pm !! current_index pm = Some proxy ∧
        get_next_proxy pm =
          (inr (Some proxy),
           {| proxies := proxies pm;
              current_index :=
                (current_index pm + 1) `mod` length (proxies pm) |})
  end ∧
  (take_proxies 7 (init [a; b; c])).1 =
    [Some a; Some b; Some c; Some a; Some b; Some c; Some a].
Proof.
  intros Hwf. split; [|done].
  destruct (proxies pm) as [|p ps] eqn:Hps.
  - unfold get_next_proxy. by rewrite Hps.
  - rewrite <- Hps. apply get_next_proxy_nonempty; [done | by rewrite Hps].
Qed.

Lemma get_next_proxy_round_robin_witness :
  wf (add_proxy "h2:1080" (init ["h1:1080"])) ∧
  (get_next_proxy (add_proxy "h2:1080" (init ["h1:1080"])) =
     (inr (Some "h1:1080"),
      {| proxies := ["h1:1080"; "h2:1080"]; current_index := 1 |})) ∧
  (take_proxies 7 (init ["a"; "b"; "c"])).1 =
    [Some "a"; Some "b"; Some "c"; Some "a"; Some "b"; Some "c"; Some "a"].
Proof.
  split; [right; simpl; lia|].
  destruct (get_next_proxy_round_robin
              (add_proxy "h2:1080" (init ["h1:1080"])) "a" "b" "c")
    as [(proxy & Hp & ->) Hseq]; [right; simpl; lia|].
  split; [|exact Hseq].
  vm_compute in Hp. injection Hp as <-. reflexivity.
Defined.

Lemma add_proxy_proxies proxy pm :
  proxies (add_proxy proxy pm) =
    if bool_decide (proxy ∈ proxies pm) then proxies pm
    else proxies pm ++ [proxy].
Proof. unfold add_proxy. by case_bool_decide. Qed.

Lemma add_proxy_NoDup proxy pm :
  NoDup (proxies pm) -> NoDup (proxies (add_proxy proxy pm)).
Proof.
  intros Hnd. rewrite add_proxy_proxies. case_bool_decide; [done|].
  apply NoDup_app. repeat split; [done | | apply NoDup_singleton].
  intros x Hx ->%list_elem_of_singleton. done.
Qed.

Lemma add_proxies_NoDup (es : list string) pm :
  NoDup (proxies pm) ->
  NoDup (proxies (foldl (λ pm e, add_proxy e pm) pm es)).
Proof.
  revert pm. induction es as [|e es IH]; intros pm Hnd; [done|].
  simpl. by apply IH, add_proxy_NoDup.
Qed.

(** C7: [add_proxy] appends the endpoint exactly when it is not yet in
    the pool and leaves the manager alone otherwise, so adding an endpoint a
    second time changes nothing; and a pool built by [add_proxy] calls from
    the empty manager never holds an endpoint twice. *)
Theorem add_proxy_idempotent pm (e : string) (es : list string) :
  proxies (add_proxy e pm) =
    (if bool_decide (e ∈ proxies pm) then proxies pm else proxies pm ++ [e]) ∧
  current_index (add_proxy e pm) = current_index pm ∧
  add_proxy e (add_proxy e pm) = add_proxy e pm ∧
  NoDup (proxies (foldl (λ pm e, add_proxy e pm) (init []) es)).
Proof.
  split; [apply add_proxy_proxies|]. split; [|split].
  - unfold add_proxy. by case_bool_decide.
  - unfold add_proxy at 1. rewrite bool_decide_true; [done|].
    rewrite add_proxy_proxies. case_bool_decide; set_solver.
  - apply add_proxies_NoDup. simpl. apply NoDup_nil_2.
Qed.

End ProxyFacts.

(** ** AccountManager: reading and writing a well-formed file *)

Section StoreFacts.
Import AccountManager.
Implicit Types (info : gmap string string) (r : list string)
  (rows : list (list string)) (s : store) (d : rowdict).

Lemma length_10_inv r :
  length r = 10%nat ->
  ∃ a0 a1 a2 a3 a4 a5 a6 a7 a8 a9, r = [a0; a1; a2; a3; a4; a5; a6; a7; a8; a9].
Proof.
  intros H. do 10 (destruct r as [|? r]; [done|]). destruct r; [|done].
  by do 10 eexists.
Qed.

(** A ten-field record read under the standard header and written back is
    the record itself. *)
Lemma dict_to_list_zip_row r :
  length r = 10%nat -> dict_to_list (zip_row FIELDNAMES r) = inr r.
Proof.
  intros H.
  destruct (length_10_inv r H) as (? & ? & ? & ? & ? & ? & ? & ? & ? & ? & ->).
  by vm_compute.
Qed.

Lemma zip_row_shape r :
  length r = 10%nat ->
  rest (zip_row FIELDNAMES r) = None ∧
  dom (cells (zip_row FIELDNAMES r)) = list_to_set FIELDNAMES.
Proof.
  intros H.
  destruct (length_10_inv r H) as (? & ? & ? & ? & ? & ? & ? & ? & ? & ? & ->).
  split; [reflexivity | vm_compute; reflexivity].
Qed.

Lemma zip_row_fields r :
  length r = 10%nat ->
  row_email (zip_row FIELDNAMES r) = Some (r !! 0%nat) ∧
  row_password (zip_row FIELDNAMES r) = Some (r !! 1%nat) ∧
  row_totp (zip_row FIELDNAMES r) = Some (r !! 7%nat).
Proof.
  intros H.
  destruct (length_10_inv r H) as (? & ? & ? & ? & ? & ? & ? & ? & ? & ? & ->).
  repeat split; by vm_compute.
Qed.

Lemma dict_to_list_setitem_password r p :
  length r = 10%nat ->
  dict_to_list (setitem "password" p (zip_row FIELDNAMES r)) = inr (<[1%nat := p]> r).
Proof.
  intros H.
  destruct (length_10_inv r H) as (? & ? & ? & ? & ? & ? & ? & ? & ? & ? & ->).
  by vm_compute.
Qed.

Lemma dict_to_list_setitem_totp r p t :
  length r = 10%nat ->
  dict_to_list (setitem "totp_secret" t (setitem "password" p (zip_row FIELDNAMES r)))
  = inr (<[7%nat := t]> (<[1%nat := p]> r)).
Proof.
  intros H.
  destruct (length_10_inv r H) as (? & ? & ? & ? & ? & ? & ? & ? & ? & ? & ->).
  by vm_compute.
Qed.

Lemma new_account_record info e p :
  info !! "email" = Some e -> info !! "new_password" = Some p ->
  ∃ d, new_account info = inr d ∧ dict_to_list d = inr (minimal_record info).
Proof.
  intros He Hp. unfold new_account, minimal_record, get. rewrite He, Hp.
  eexists. split; [done|]. simpl. by vm_compute.
Qed.

Lemma filter_nonblank rows :
  Forall (λ r, length r = 10%nat) rows -> filter (λ r, r ≠ []) rows = rows.
Proof.
  induction 1 as [|r rows Hr _ IH]; [done|].
  rewrite filter_cons_True by (by destruct r). by rewrite IH.
Qed.

Lemma read_accounts_wf rows :
  Forall (λ r, length r = 10%nat) rows ->
  read_accounts (Some (FIELDNAMES :: rows)) = zip_row FIELDNAMES <$> rows.
Proof. intros H. simpl. by rewrite filter_nonblank. Qed.

Lemma writerows_zip_row rows :
  Forall (λ r, length r = 10%nat) rows ->
  writerows (zip_row FIELDNAMES <$> rows) = (rows, None).
Proof.
  induction 1 as [|r rows Hr _ IH]; [done|].
  rewrite fmap_cons. cbn [writerows].
  by rewrite dict_to_list_zip_row, IH.
Qed.

Lemma update_loop_records info e p rows :
  info !! "email" = Some e -> info !! "new_password" = Some p ->
  Forall (λ r, length r = 10%nat) rows ->
  ∃ updated accounts,
    update_loop info (zip_row FIELDNAMES <$> rows) = inr (updated, accounts) ∧
    ∀ d, dict_to_list d = inr (minimal_record info) ->
      writerows (if updated then accounts else accounts ++ [d])
      = (upsert_records info rows, None).
Proof.
  intros He Hp. induction 1 as [|r rows Hr Hrows IH].
  - exists false, []. split; [done|]. intros d Hd. simpl. by rewrite Hd.
  - destruct IH as (updated & accounts & Hloop & Hwrite).
    rewrite fmap_cons. cbn [update_loop upsert_records].
    destruct (zip_row_fields r Hr) as (Hemail & _ & _).
    unfold row_email in Hemail. rewrite Hemail, He.
    destruct (r !! 0%nat) as [a|] eqn:Ha; [|by destruct r].
    case_bool_decide as Hv.
    + rewrite Hp.
      eexists true, _. split; [done|]. intros d _.
      cbn [writerows]. unfold overwrite_record, get. rewrite Hp. simpl.
      destruct (truthy (info !! "totp_secret")).
      * by rewrite dict_to_list_setitem_totp, writerows_zip_row.
      * by rewrite dict_to_list_setitem_password, writerows_zip_row.
    + rewrite Hloop. eexists updated, _. split; [done|]. intros d Hd.
      specialize (Hwrite d Hd).
      destruct updated; cbn [app writerows];
        by rewrite dict_to_list_zip_row, Hwrite.
Qed.

(** On a well-formed file [update_account] raises nothing and acts on the
    records as [upsert_records], on the TOTP entries as [update_totp]. *)
Lemma update_account_records now info e p rows s :
  info !! "email" = Some e -> info !! "new_password" = Some p ->
  accounts_file s = Some (FIELDNAMES :: rows) ->
  Forall (λ r, length r = 10%nat) rows ->
  update_account now info s =
    ({| accounts_file := Some (FIELDNAMES :: upsert_records info rows);
        totp_file :=
          if truthy (info !! "totp_secret")
          then Entries (update_totp e (get info "totp_secret" "")
                          (get info "update_time" now) (read_totp (totp_file s)))
          else totp_file s |}, None).
Proof.
  intros He Hp Hfile Hrows. unfold update_account.
  rewrite Hfile, read_accounts_wf by done.
  destruct (update_loop_records info e p rows He Hp Hrows)
    as (updated & accounts & -> & Hwrite).
  destruct (new_account_record info e p He Hp) as (d & Hnew & Hd).
  specialize (Hwrite d Hd). rewrite Hnew.
  destruct updated; rewrite Hwrite; cbn [accounts_file totp_file];
    unfold get at 1; rewrite ?He; by destruct (truthy _).
Qed.

(** [save_account] with an [email] key raises nothing and appends one
    record. *)
Lemma save_account_records now info e s :
  info !! "email" = Some e ->
  save_account now info s =
    ({| accounts_file :=
          Some (default [] (accounts_file s) ++
                  [(λ k, get info k "") <$> FIELDNAMES]);
        totp_file :=
          if truthy (info !! "totp_secret")
          then Entries (read_totp (totp_file s) ++
                          [{| t_email := e;
                              t_secret := get info "totp_secret" "";
                              t_time := get info "creation_time" now |}])
          else totp_file s |}, None).
Proof.
  intros He. unfold save_account. rewrite He.
  by destruct (truthy (info !! "totp_secret")).
Qed.

Lemma upsert_records_length_10 info rows :
  Forall (λ r, length r = 10%nat) rows ->
  Forall (λ r, length r = 10%nat) (upsert_records info rows).
Proof.
  induction 1 as [|r rows Hr Hrows IH]; simpl.
  - by repeat constructor.
  - case_bool_decide; constructor; try done.
    unfold overwrite_record. destruct (truthy _); by rewrite !length_insert.
Qed.

Lemma rows_of_zip_row e rows :
  Forall (λ r, length r = 10%nat) rows ->
  rows_of e (zip_row FIELDNAMES <$> rows) = zip_row FIELDNAMES <$> records_of e rows.
Proof.
  unfold rows_of, records_of.
  induction 1 as [|r rows Hr _ IH]; [done|].
  rewrite fmap_cons, !filter_cons, IH.
  destruct (zip_row_fields r Hr) as (-> & _ & _).
  destruct (decide (r !! 0%nat = Some e)) as [Heq|Hne].
  - rewrite decide_True by congruence. done.
  - rewrite decide_False by congruence. done.
Qed.

Lemma load_accounts_wf s rows :
  accounts_file s = Some (FIELDNAMES :: rows) ->
  Forall (λ r, length r = 10%nat) rows ->
  load_accounts s = zip_row FIELDNAMES <$> rows.
Proof. intros Hs Hrows. unfold load_accounts. by rewrite Hs, read_accounts_wf. Qed.

(** C8: [load_accounts] returns no rows when the account file is
    missing; on a file with the standard header it returns one row per
    record, in file order, each with exactly the ten named cells holding the
    fields of its record. *)
Theorem load_accounts_full_collection s rows :
  Forall (λ r, length r = 10%nat) rows ->
  load_accounts {| accounts_file := None; totp_file := totp_file s |} = [] ∧
  let rows' :=
    load_accounts {| accounts_file := Some (FIELDNAMES :: rows);
                     totp_file := totp_file s |} in
  dict_to_list <$> rows' = inr <$> rows ∧
  Forall (λ d, rest d = None ∧ dom (cells d) = list_to_set FIELDNAMES) rows'.
Proof.
  intros Hrows. split; [done|]. cbv zeta.
  rewrite (load_accounts_wf _ rows) by done.
  split.
  - rewrite <- list_fmap_compose. apply Forall_fmap_ext.
    eapply Forall_impl; [exact Hrows|]. intros r Hr. simpl.
    by apply dict_to_list_zip_row.
  - apply Forall_fmap. eapply Forall_impl; [exact Hrows|]. intros r Hr.
    by apply zip_row_shape.
Qed.

Lemma load_accounts_full_collection_witness :
  Forall (λ r, length r = 10%nat)
    [["a@outlook.com"; "pw"; "Alex"; "Smith"; "1990"; "2"; "28"; ""; "t0"; "1.5"]] ∧
  load_accounts {| accounts_file := None; totp_file := Missing |} = [] ∧
  let rows' :=
    load_accounts
      {| accounts_file :=
           Some [FIELDNAMES;
                 ["a@outlook.com"; "pw"; "Alex"; "Smith"; "1990"; "2"; "28";
                  ""; "t0"; "1.5"]];
         totp_file := Missing |} in
  dict_to_list <$> rows' =
    [inr ["a@outlook.com"; "pw"; "Alex"; "Smith"; "1990"; "2"; "28"; ""; "t0"; "1.5"]] ∧
  Forall (λ d, rest d = None ∧ dom (cells d) = list_to_set FIELDNAMES) rows'.
Proof.
  assert (Forall (λ r, length r = 10%nat)
    [["a@outlook.com"; "pw"; "Alex"; "Smith"; "1990"; "2"; "28"; ""; "t0"; "1.5"]])
    as H by (by repeat constructor).
  split; [exact H|].
  exact (load_accounts_full_collection
           {| accounts_file := None; totp_file := Missing |} _ H).
Defined.

End StoreFacts.

Section Upsert.
Import AccountManager.
Implicit Types (info : gmap string string) (r : list string)
  (rows : list (list string)) (s : store) (d : rowdict).

Lemma overwrite_record_email info r : overwrite_record info r !! 0%nat = r !! 0%nat.
Proof.
  unfold overwrite_record. destruct (truthy _);
    by rewrite ?list_lookup_insert_ne by done.
Qed.

Lemma overwrite_record_idemp info r :
  overwrite_record info (overwrite_record info r) = overwrite_record info r.
Proof.
  unfold overwrite_record. destruct (truthy _).
  - rewrite (list_insert_insert_ne (<[1%nat:=_]> r) 1 7) by done.
    by rewrite !list_insert_insert_eq.
  - by rewrite list_insert_insert_eq.
Qed.

Lemma overwrite_record_fields info r :
  length r = 10%nat ->
  overwrite_record info r !! 1%nat = Some (get info "new_password" "") ∧
  overwrite_record info r !! 7%nat =
    if truthy (info !! "totp_secret") then Some (get info "totp_secret" "")
    else r !! 7%nat.
Proof.
  intros H. unfold overwrite_record. destruct (truthy _).
  - rewrite list_lookup_insert_ne by done.
    rewrite !list_lookup_insert_eq by (rewrite ?length_insert; lia). done.
  - rewrite list_lookup_insert_eq by lia.
    by rewrite list_lookup_insert_ne by done.
Qed.

Lemma minimal_record_overwrite info :
  overwrite_record info (minimal_record info) = minimal_record info.
Proof. unfold overwrite_record, minimal_record. by destruct (truthy _). Qed.

Lemma upsert_records_idemp info e rows :
  info !! "email" = Some e ->
  upsert_records info (upsert_records info rows) = upsert_records info rows.
Proof.
  intros He. induction rows as [|r rows IH]; simpl.
  - rewrite bool_decide_true by (simpl; unfold get; by rewrite He).
    by rewrite minimal_record_overwrite.
  - case_bool_decide as Hr; simpl.
    + rewrite overwrite_record_email, bool_decide_true by done.
      by rewrite overwrite_record_idemp.
    + rewrite bool_decide_false by done. by rewrite IH.
Qed.

Lemma update_totp_idemp e t time data :
  update_totp e t time (update_totp e t time data) = update_totp e t time data.
Proof.
  induction data as [|x data IH]; simpl.
  - by rewrite bool_decide_true.
  - case_bool_decide as Hx; simpl.
    + by rewrite bool_decide_true.
    + rewrite bool_decide_false by done. by rewrite IH.
Qed.

(** The records of the changed email: the first one is overwritten, or the
    minimal record is appended when there is none. *)
Lemma upsert_records_same info e rows :
  info !! "email" = Some e ->
  match records_of e rows with
  | [] => upsert_records info rows = rows ++ [minimal_record info]
  | r :: others =>
      records_of e (upsert_records info rows) = overwrite_record info r :: others ∧
      length (upsert_records info rows) = length rows
  end.
Proof.
  intros He. unfold records_of. induction rows as [|r rows IH]; [done|].
  simpl. rewrite He, filter_cons.
  destruct (decide (r !! 0%nat = Some e)) as [Hr|Hr].
  - rewrite bool_decide_true by done.
    rewrite filter_cons_True by (by rewrite overwrite_record_email). done.
  - rewrite bool_decide_false by done.
    destruct (filter _ rows) as [|r' others].
    + by rewrite IH.
    + destruct IH as [IH1 IH2]. rewrite filter_cons_False by done.
      split; [done | simpl; by rewrite IH2].
Qed.

(** The records of every other email are left as they are. *)
Lemma upsert_records_other info e e' rows :
  info !! "email" = Some e -> e' ≠ e ->
  records_of e' (upsert_records info rows) = records_of e' rows.
Proof.
  intros He Hne. unfold records_of. induction rows as [|r rows IH]; simpl.
  - rewrite filter_cons_False; [done|].
    unfold minimal_record, get. rewrite He. simpl. intros [= ->]. done.
  - case_bool_decide as Hr.
    + rewrite !filter_cons, overwrite_record_email.
      rewrite !decide_False; [done | congruence | congruence].
    + by rewrite !filter_cons, IH.
Qed.

End Upsert.

(** ** save, update, load *)

Section SaveUpdateLoad.
Import AccountManager.
Implicit Types (info record : gmap string string) (r : list string)
  (rows : list (list string)) (s : store) (d : rowdict).

Lemma account_record_length info :
  length ((λ k, get info k "") <$> FIELDNAMES) = 10%nat.
Proof. done. Qed.

Lemma minimal_record_length info : length (minimal_record info) = 10%nat.
Proof. done. Qed.

(** C3, as the code has it: on a store whose account file is well
    formed, [save_account] followed by [load_accounts] shows a row with the
    record's email; [update_account] raises nothing, is idempotent, and
    followed by [load_accounts] shows, when the email was present, the same
    number of rows with the first row of that email carrying the new
    password and the other rows of that email untouched (so exactly one row
    when there was exactly one), and, when the email was absent, the old
    rows followed by one minimal row for it. *)
Theorem save_load_update_upsert now now' record info e X rows s :
  accounts_file s = Some (FIELDNAMES :: rows) ->
  Forall (λ r, length r = 10%nat) rows ->
  record !! "email" = Some e ->
  info !! "email" = Some e ->
  info !! "new_password" = Some X ->
  ((save_account now record s).2 = None ∧
   ∃ d, d ∈ load_accounts (save_account now record s).1 ∧
        row_email d = Some (Some e)) ∧
  let before := load_accounts s in
  let after := load_accounts (update_account now' info s).1 in
  (update_account now' info s).2 = None ∧
  update_account now' info (update_account now' info s).1
    = update_account now' info s ∧
  match rows_of e before with
  | [] =>
      ∃ d, after = before ++ [d] ∧ rows_of e after = [d] ∧
           new_account info = inr d ∧
           row_email d = Some (Some e) ∧ row_password d = Some (Some X)
  | _ :: others =>
      length after = length before ∧
      ∃ d, rows_of e after = d :: others ∧
           row_email d = Some (Some e) ∧ row_password d = Some (Some X)
  end.
Proof.
  intros Hs Hrows Hrec He HX. split.
  - rewrite (save_account_records now record e s Hrec). cbn [fst snd].
    split; [done|].
    rewrite Hs. cbn [default].
    erewrite (load_accounts_wf _ (rows ++ [_])); cycle 1.
    { reflexivity. }
    { apply Forall_app. split; [done|]. by repeat constructor. }
    eexists. split.
    + rewrite fmap_app. apply elem_of_app. right. apply list_elem_of_singleton.
      reflexivity.
    + destruct (zip_row_fields _ (account_record_length record)) as (-> & _).
      simpl. unfold get. by rewrite Hrec.
  - cbv zeta.
    rewrite (update_account_records now' info e X rows s He HX Hs Hrows).
    cbn [fst snd].
    pose proof (upsert_records_length_10 info rows Hrows) as Hrows'.
    split; [done|]. split.
    { erewrite (update_account_records now' info e X (upsert_records info rows));
        [|done|done|reflexivity|done].
      cbn [totp_file]. rewrite (upsert_records_idemp info e) by done.
      destruct (truthy (info !! "totp_secret")); [|done].
      cbn [read_totp]. by rewrite update_totp_idemp. }
    rewrite (load_accounts_wf s rows) by done.
    erewrite (load_accounts_wf _ (upsert_records info rows)); [|reflexivity|done].
    rewrite !rows_of_zip_row by done.
    pose proof (upsert_records_same info e rows He) as Hsame.
    destruct (records_of e rows) as [|r others] eqn:Hrec_e; cbn [fmap list_fmap].
    + rewrite Hsame. rewrite fmap_app. cbn [fmap list_fmap].
      destruct (new_account_record info e X He HX) as (d & Hnew & Hd).
      exists (zip_row FIELDNAMES (minimal_record info)).
      split; [done|]. split.
      { unfold records_of in *. rewrite filter_app, Hrec_e.
        rewrite filter_cons_True; [done|].
        unfold minimal_record, get. by rewrite He. }
      split.
      { unfold new_account, minimal_record, get. rewrite He, HX.
        by vm_compute. }
      destruct (zip_row_fields _ (minimal_record_length info)) as (-> & -> & _).
      unfold minimal_record, get. by rewrite He, HX.
    + destruct Hsame as [Hsame Hlen]. rewrite Hsame, !length_fmap.
      split; [done|]. cbn [fmap list_fmap].
      eexists. split; [reflexivity|].
      assert (r !! 0%nat = Some e ∧ r ∈ rows) as [Hr0 Hin].
      { apply (list_elem_of_filter (λ r, r !! 0%nat = Some e)).
        unfold records_of in Hrec_e. rewrite Hrec_e. by left. }
      assert (length r = 10%nat) as Hr.
      { by eapply (proj1 (Forall_forall _ _) Hrows). }
      assert (length (overwrite_record info r) = 10%nat) as Hr'.
      { unfold overwrite_record. destruct (truthy _); by rewrite !length_insert. }
      destruct (zip_row_fields _ Hr') as (-> & -> & _).
      rewrite overwrite_record_email, Hr0.
      destruct (overwrite_record_fields info r Hr) as [-> _].
      unfold get. by rewrite HX.
Qed.

Lemma save_load_update_upsert_witness :
  accounts_file sample_store = Some (FIELDNAMES :: sample_rows) ∧
  Forall (λ r, length r = 10%nat) sample_rows ∧
  sample_record "a@outlook.com" "p0" "" !! "email" = Some "a@outlook.com" ∧
  sample_change "a@outlook.com" "X" "" !! "email" = Some "a@outlook.com" ∧
  sample_change "a@outlook.com" "X" "" !! "new_password" = Some "X" ∧
  ((save_account "t1" (sample_record "a@outlook.com" "p0" "") sample_store).2 = None ∧
   ∃ d, d ∈ load_accounts
              (save_account "t1" (sample_record "a@outlook.com" "p0" "")
                 sample_store).1 ∧
        row_email d = Some (Some "a@outlook.com")) ∧
  let info := sample_change "a@outlook.com" "X" "" in
  let before := load_accounts sample_store in
  let after := load_accounts (update_account "t2" info sample_store).1 in
  (update_account "t2" info sample_store).2 = None ∧
  update_account "t2" info (update_account "t2" info sample_store).1
    = update_account "t2" info sample_store ∧
  match rows_of "a@outlook.com" before with
  | [] =>
      ∃ d, after = before ++ [d] ∧ rows_of "a@outlook.com" after = [d] ∧
           new_account info = inr d ∧
           row_email d = Some (Some "a@outlook.com") ∧
           row_password d = Some (Some "X")
  | _ :: others =>
      length after = length before ∧
      ∃ d, rows_of "a@outlook.com" after = d :: others ∧
           row_email d = Some (Some "a@outlook.com") ∧
           row_password d = Some (Some "X")
  end.
Proof.
  assert (Forall (λ r, length r = 10%nat) sample_rows) as Hrows
    by (by repeat constructor).
  split; [reflexivity|]. split; [exact Hrows|].
  split; [reflexivity|]. split; [reflexivity|]. split; [reflexivity|].
  exact (save_load_update_upsert "t1" "t2"
           (sample_record "a@outlook.com" "p0" "")
           (sample_change "a@outlook.com" "X" "")
           "a@outlook.com" "X" sample_rows sample_store
           eq_refl Hrows eq_refl eq_refl eq_refl).
Defined.

(** The sample update, evaluated: one row for the email, with the new
    password. *)
Example sample_update_result :
  (λ d, (row_email d, row_password d)) <$>
    load_accounts
      (update_account "t2" (sample_change "a@outlook.com" "X" "") sample_store).1
  = [(Some (Some "a@outlook.com"), Some (Some "X"))].
Proof. by vm_compute. Qed.

End SaveUpdateLoad.

(** ** Sequences of save and update calls *)

Section Calls.
Import AccountManager.
Implicit Types (info : gmap string string) (r : list string)
  (rows : list (list string)) (s : store) (c : call) (calls : list call).

Lemma truthy_get info k : truthy (info !! k) = bool_decide (get info k "" ≠ "").
Proof.
  unfold truthy, get. destruct (info !! k); [done|].
  by rewrite bool_decide_false by (intros H; by apply H).
Qed.

Lemma run_calls_snoc calls c s :
  run_calls (calls ++ [c]) s =
    let '(s', raised) := run_calls calls s in
    let '(s'', e) := do_call c s' in (s'', raised ++ option_list e).
Proof.
  unfold run_calls. rewrite foldl_snoc.
  by destruct (foldl _ _ calls) as [s' raised].
Qed.

Lemma calls_for_snoc e calls c :
  calls_for e (calls ++ [c]) =
    calls_for e calls ++ (if decide (call_email c = Some e) then [c] else []).
Proof.
  unfold calls_for. rewrite filter_app, filter_cons, filter_nil. done.
Qed.

Lemma last_password_snoc e calls c :
  last_password (calls ++ [c]) e =
    if decide (call_email c = Some e) then Some (call_password c)
    else last_password calls e.
Proof.
  unfold last_password. rewrite calls_for_snoc. case_decide.
  - by rewrite last_snoc.
  - by rewrite app_nil_r.
Qed.

Lemma last_totp_snoc e calls c :
  last_totp (calls ++ [c]) e =
    if decide (call_email c = Some e) then
      if decide (call_totp c ≠ "") then call_totp c else last_totp calls e
    else last_totp calls e.
Proof.
  unfold last_totp. rewrite calls_for_snoc. case_decide.
  - rewrite fmap_app, filter_app. cbn [fmap list_fmap].
    rewrite filter_cons, filter_nil. case_decide.
    + by rewrite last_snoc.
    + by rewrite app_nil_r.
  - by rewrite app_nil_r.
Qed.

Lemma last_password_None e calls :
  last_password calls e = None -> calls_for e calls = [].
Proof.
  unfold last_password. intros H. apply last_None.
  by destruct (last (calls_for e calls)).
Qed.

Lemma last_totp_unwritten e calls : calls_for e calls = [] -> last_totp calls e = "".
Proof. unfold last_totp. by intros ->. Qed.

Lemma saves_fresh_snoc calls c :
  saves_fresh (calls ++ [c]) ->
  saves_fresh calls ∧
  ∀ now info, c = Save now info ->
    Forall (λ c', call_email c' ≠ info !! "email") calls.
Proof.
  intros Hfresh. split.
  - intros i now info Hi.
    pose proof (lookup_lt_Some _ _ _ Hi) as Hlt.
    specialize (Hfresh i now info (lookup_app_l_Some _ _ _ _ Hi)).
    by rewrite take_app_le in Hfresh by lia.
  - intros now info ->.
    specialize (Hfresh (length calls) now info (list_lookup_middle _ _ _ _ eq_refl)).
    by rewrite take_app_length in Hfresh.
Qed.

Lemma calls_for_fresh e calls :
  Forall (λ c', call_email c' ≠ Some e) calls -> calls_for e calls = [].
Proof.
  unfold calls_for. induction 1 as [|c calls Hc _ IH]; [done|].
  by rewrite filter_cons_False.
Qed.

Lemma records_of_snoc e rows r :
  records_of e (rows ++ [r]) =
    records_of e rows ++ (if decide (r !! 0%nat = Some e) then [r] else []).
Proof. unfold records_of. by rewrite filter_app, filter_cons, filter_nil. Qed.

Lemma history_inv_run calls s0 :
  accounts_file s0 = Some [FIELDNAMES] ->
  Forall call_ok calls ->
  saves_fresh calls ->
  ∃ s rows,
    run_calls calls s0 = (s, []) ∧
    accounts_file s = Some (FIELDNAMES :: rows) ∧
    history_inv calls rows.
Proof.
  intros Hs0. induction calls as [|c calls IH] using rev_ind; intros Hok Hfresh.
  - exists s0, []. split; [done|]. split; [done|]. split; [done|]. by intros e.
  - apply Forall_app in Hok as [Hok Hc]. rewrite Forall_singleton in Hc.
    apply saves_fresh_snoc in Hfresh as [Hfresh Hsave].
    destruct (IH Hok Hfresh) as (s & rows & Hrun & Hfile & Hlen & Hinv).
    rewrite run_calls_snoc, Hrun.
    destruct c as [now info|now info]; cbn [call_ok] in Hc.
    + (* save_account *)
      destruct Hc as [e0 He0]. cbn [do_call].
      rewrite (save_account_records now info e0 s He0), Hfile. cbn [default].
      eexists _, (rows ++ [_]). split; [reflexivity|]. split; [reflexivity|].
      split; [apply Forall_app; split; [done | by repeat constructor]|].
      intros e. specialize (Hinv e).
      rewrite last_password_snoc, last_totp_snoc, records_of_snoc.
      unfold call_email, call_totp, call_password. cbn [call_info].
      assert (get info "email" "" = e0) as Hg by (unfold get; by rewrite He0).
      cbn [fmap list_fmap FIELDNAMES lookup list_lookup]. rewrite Hg, He0.
      destruct (decide (Some e0 = Some e)) as [[= <-]|Hne].
      * specialize (Hsave now info eq_refl). rewrite He0 in Hsave.
        pose proof (calls_for_fresh e0 calls Hsave) as Hnone.
        unfold last_password in Hinv. rewrite Hnone in Hinv. cbn in Hinv.
        rewrite Hinv. cbn [app].
        eexists. split; [reflexivity|]. split; [done|].
        cbn [lookup list_lookup]. f_equal.
        case_decide as Ht; [done|].
        rewrite (last_totp_unwritten _ _ Hnone).
        by destruct (decide (get info "totp_secret" "" = "")).
      * by rewrite app_nil_r.
    + (* update_account *)
      destruct Hc as [[e0 He0] [p Hp]]. cbn [do_call].
      rewrite (update_account_records now info e0 p rows s He0 Hp Hfile Hlen).
      eexists _, _. split; [reflexivity|]. split; [reflexivity|].
      split; [by apply upsert_records_length_10|].
      intros e. specialize (Hinv e).
      rewrite last_password_snoc, last_totp_snoc.
      unfold call_email, call_totp, call_password. cbn [call_info]. rewrite He0.
      destruct (decide (Some e0 = Some e)) as [[= <-]|Hne].
      * pose proof (upsert_records_same info e0 rows He0) as Hsame.
        unfold get at 1. rewrite Hp.
        destruct (last_password calls e0) as [p0|] eqn:Hlast.
        -- destruct Hinv as (r & Hr & Hr1 & Hr7). rewrite Hr in Hsame.
           destruct Hsame as [-> _].
           assert (length r = 10%nat) as Hr10.
           { eapply (proj1 (Forall_forall _ _) Hlen).
             apply (list_elem_of_filter (λ r, r !! 0%nat = Some e0)).
             unfold records_of in Hr. rewrite Hr. by left. }
           destruct (overwrite_record_fields info r Hr10) as [H1 H7].
           eexists. split; [reflexivity|]. split.
           { rewrite H1. unfold get. by rewrite Hp. }
           rewrite H7, truthy_get, Hr7.
           destruct (decide (get info "totp_secret" "" ≠ "")).
           ++ by rewrite bool_decide_true.
           ++ by rewrite bool_decide_false.
        -- rewrite Hinv in Hsame. rewrite Hsame, records_of_snoc, Hinv.
           rewrite decide_True by (unfold minimal_record, get; by rewrite He0).
           eexists. split; [reflexivity|]. split.
           { unfold minimal_record, get. by rewrite Hp. }
           unfold minimal_record. cbn [lookup list_lookup]. f_equal.
           case_decide as Ht; [done|].
           rewrite (last_totp_unwritten _ _ (last_password_None _ _ Hlast)).
           by destruct (decide (get info "totp_secret" "" = "")).
      * rewrite (upsert_records_other info e0 e) by congruence. done.
Qed.

End Calls.

Section History.
Import AccountManager.

(** C1, as the code has it: after any sequence of [save_account] and
    [update_account] calls on a freshly created store in which no save is
    given an email that an earlier call of the sequence wrote, no call has
    raised, every stored row has an email, an email no call wrote has no
    row, and an email some call wrote has exactly one row, which carries the
    most recent password and the most recent non-empty totp_secret written
    for it (the empty one if none was). *)
Theorem save_update_history (calls : list call) (s0 : store) :
  accounts_file s0 = Some [FIELDNAMES] ->
  Forall call_ok calls ->
  saves_fresh calls ->
  let '(s, raised) := run_calls calls s0 in
  raised = [] ∧
  Forall (λ d, ∃ e, row_email d = Some (Some e)) (load_accounts s) ∧
  ∀ e,
    match last_password calls e with
    | None => rows_of e (load_accounts s) = []
    | Some p =>
        ∃ d, rows_of e (load_accounts s) = [d] ∧
             row_password d = Some (Some p) ∧
             row_totp d = Some (Some (last_totp calls e))
    end.
Proof.
  intros Hs0 Hok Hfresh.
  destruct (history_inv_run calls s0 Hs0 Hok Hfresh)
    as (s & rows & -> & Hfile & Hlen & Hinv).
  split; [done|]. rewrite (load_accounts_wf s rows Hfile Hlen). split.
  - apply Forall_fmap. eapply Forall_impl; [exact Hlen|]. intros r Hr. simpl.
    destruct (zip_row_fields r Hr) as (-> & _).
    destruct r as [|a r]; [done|]. by exists a.
  - intros e. specialize (Hinv e). rewrite rows_of_zip_row by done.
    destruct (last_password calls e) as [p|]; [|by rewrite Hinv].
    destruct Hinv as (r & Hr & H1 & H7). rewrite Hr.
    eexists. split; [reflexivity|].
    assert (length r = 10%nat) as Hr10.
    { eapply (proj1 (Forall_forall _ _) Hlen).
      apply (list_elem_of_filter (λ r, r !! 0%nat = Some e)).
      unfold records_of in Hr. rewrite Hr. by left. }
    destruct (zip_row_fields r Hr10) as (_ & -> & ->). by rewrite H1, H7.
Qed.

Lemma sample_calls_ok : Forall call_ok sample_calls.
Proof. repeat constructor; by eexists. Qed.

Lemma sample_calls_fresh : saves_fresh sample_calls.
Proof.
  intros i now info Hi.
  destruct i as [|[|[|[|i]]]]; simpl in Hi; done.
Qed.

Lemma save_update_history_witness :
  accounts_file fresh_store = Some [FIELDNAMES] ∧
  Forall call_ok sample_calls ∧
  saves_fresh sample_calls ∧
  let '(s, raised) := run_calls sample_calls fresh_store in
  raised = [] ∧
  Forall (λ d, ∃ e, row_email d = Some (Some e)) (load_accounts s) ∧
  ∀ e,
    match last_password sample_calls e with
    | None => rows_of e (load_accounts s) = []
    | Some p =>
        ∃ d, rows_of e (load_accounts s) = [d] ∧
             row_password d = Some (Some p) ∧
             row_totp d = Some (Some (last_totp sample_calls e))
    end.
Proof.
  split; [reflexivity|].
  split; [exact sample_calls_ok|].
  split; [exact sample_calls_fresh|].
  exact (save_update_history sample_calls fresh_store eq_refl
           sample_calls_ok sample_calls_fresh).
Defined.

(** The run of the sample calls, evaluated. *)
Example sample_calls_result :
  (λ d, (row_email d, row_password d, row_totp d)) <$>
    load_accounts (run_calls sample_calls fresh_store).1 =
  [(Some (Some "a@outlook.com"), Some (Some "p3"), Some (Some "SECRET"));
   (Some (Some "b@outlook.com"), Some (Some "q1"), Some (Some ""))].
Proof. by vm_compute. Qed.

(** C1 as stated fails: two saves of one email leave two rows for it. *)
Lemma save_twice_two_rows :
  let calls := [Save "t1" (sample_record "a@outlook.com" "p1" "");
                Save "t2" (sample_record "a@outlook.com" "p2" "")] in
  let '(s, raised) := run_calls calls fresh_store in
  raised = [] ∧
  (λ d, (row_email d, row_password d)) <$> load_accounts s =
    [(Some (Some "a@outlook.com"), Some (Some "p1"));
     (Some (Some "a@outlook.com"), Some (Some "p2"))] ∧
  length (rows_of "a@outlook.com" (load_accounts s)) = 2%nat.
Proof. by vm_compute. Qed.

(** C3 as stated fails: on a store that holds an email twice, an update
    of that email rewrites the first of its rows only. *)
Lemma update_keeps_duplicate_row :
  let s := (run_calls [Save "t1" (sample_record "a@outlook.com" "p1" "");
                       Save "t2" (sample_record "a@outlook.com" "p2" "")]
              fresh_store).1 in
  let '(s', raised) :=
    update_account "t3" (sample_change "a@outlook.com" "X" "") s in
  raised = None ∧
  length (rows_of "a@outlook.com" (load_accounts s)) = 2%nat ∧
  (λ d, (row_email d, row_password d)) <$> load_accounts s' =
    [(Some (Some "a@outlook.com"), Some (Some "X"));
     (Some (Some "a@outlook.com"), Some (Some "p2"))] ∧
  length (rows_of "a@outlook.com" (load_accounts s')) = 2%nat.
Proof. by vm_compute. Qed.

End History.

(** ** The create-account job *)

Section JobFacts.
Import AccountManager Job.
Implicit Types (r : run) (w : world) (s : store).

Lemma create_outlook_account_email r :
  create_outlook_account r !! "email" = Some (email_name (ident r) +:+ "@outlook.com").
Proof. unfold create_outlook_account. destruct (signup r); by vm_compute. Qed.

(** A signup step that raises: the procedure returns the account with the
    error text and the elapsed time. *)
Lemma create_outlook_account_failure r text :
  signup r = Some text ->
  create_outlook_account r !! "error" = Some text ∧
  create_outlook_account r !! "elapsed_time" = Some (elapsed_time r).
Proof. intros H. unfold create_outlook_account. rewrite H. split; by vm_compute. Qed.

Lemma create_outlook_account_success r :
  signup r = None ->
  create_outlook_account r !! "error" = None ∧
  create_outlook_account r !! "totp_secret" = Some (bind_totp (totp_page r)) ∧
  create_outlook_account r !! "elapsed_time" = Some (elapsed_time r).
Proof.
  intros H. unfold create_outlook_account. rewrite H. repeat split; by vm_compute.
Qed.

(** What [save_account] does with the account of a job that returned
    without an error: one record more, and one TOTP entry more exactly when
    the secret is not empty. *)
Lemma save_account_job now r s :
  signup r = None ->
  save_account now (create_outlook_account r) s =
    ({| accounts_file := Some (default [] (accounts_file s) ++ [saved_record r]);
        totp_file :=
          if bool_decide (bind_totp (totp_page r) ≠ "")
          then Entries (read_totp (totp_file s) ++
                          [{| t_email := email_name (ident r) +:+ "@outlook.com";
                              t_secret := bind_totp (totp_page r);
                              t_time := creation_time r |}])
          else totp_file s |}, None).
Proof.
  intros H.
  rewrite (save_account_records now _ _ s (create_outlook_account_email r)).
  destruct (create_outlook_account_success r H) as (_ & Htotp & _).
  rewrite Htotp. cbn [truthy].
  unfold create_outlook_account. rewrite H.
  reflexivity.
Qed.

(** C10: when a step of the TOTP page raises, [bind_totp] returns the
    empty string; the account the job returns has no [error] key and an
    empty [totp_secret]; [save_account] appends its record, with the empty
    secret, to the account file and leaves the TOTP file as it is; and the
    worker queues that account as the result of the job. *)
Theorem bind_totp_failure_keeps_success
    (str : exn -> string) r text w (proxy : option string) pm' :
  signup r = None ->
  totp_page r = inr text ->
  driver_start r = None ->
  ProxyManager.get_next_proxy (proxy_manager w) = (inr proxy, pm') ->
  bind_totp (totp_page r) = "" ∧
  let account_info := create_outlook_account r in
  let files' :=
    {| accounts_file :=
         Some (default [] (accounts_file (files w)) ++ [saved_record r]);
       totp_file := totp_file (files w) |} in
  account_info !! "error" = None ∧
  account_info !! "totp_secret" = Some "" ∧
  saved_record r !! 7%nat = Some "" ∧
  save_account (save_time r) account_info (files w) = (files', None) ∧
  worker_job str r w =
    {| proxy_manager := pm'; files := files';
       result_queue := result_queue w ++ [account_info];
       drivers := drivers w ++ [DriverStarted proxy; DriverQuit] |}.
Proof.
  intros Hsignup Hpage Hdriver Hproxy.
  assert (bind_totp (totp_page r) = "") as Hbind by (by rewrite Hpage).
  split; [done|]. cbv zeta.
  destruct (create_outlook_account_success r Hsignup) as (Herr & Htotp & _).
  rewrite Hbind in Htotp.
  pose proof (save_account_job (save_time r) r (files w) Hsignup) as Hsave.
  rewrite Hbind, bool_decide_false in Hsave by (intros H; by apply H).
  split; [done|]. split; [done|].
  split; [by (unfold saved_record; rewrite Hbind)|].
  split; [exact Hsave|].
  unfold worker_job. rewrite Hproxy, Hdriver. cbn [log files proxy_manager].
  rewrite bool_decide_true by done. rewrite Hsave.
  unfold log, put. cbn. by rewrite <- app_assoc.
Qed.

Lemma bind_totp_failure_keeps_success_witness :
  let r := sample_run None (inr "TimeoutException") in
  let w := sample_world in
  signup r = None ∧
  totp_page r = inr "TimeoutException" ∧
  driver_start r = None ∧
  ProxyManager.get_next_proxy (proxy_manager w) =
    (inr (Some "h1:1080"),
     {| ProxyManager.proxies := ["h1:1080"; "h2:1080"];
        ProxyManager.current_index := 1 |}) ∧
  bind_totp (totp_page r) = "" ∧
  let account_info := create_outlook_account r in
  let files' :=
    {| accounts_file :=
         Some (default [] (accounts_file (files w)) ++ [saved_record r]);
       totp_file := totp_file (files w) |} in
  account_info !! "error" = None ∧
  account_info !! "totp_secret" = Some "" ∧
  saved_record r !! 7%nat = Some "" ∧
  save_account (save_time r) account_info (files w) = (files', None) ∧
  worker_job sample_str r w =
    {| proxy_manager :=
         {| ProxyManager.proxies := ["h1:1080"; "h2:1080"];
            ProxyManager.current_index := 1 |};
       files := files';
       result_queue := result_queue w ++ [account_info];
       drivers := drivers w ++ [DriverStarted (Some "h1:1080"); DriverQuit] |}.
Proof.
  cbv zeta.
  split; [reflexivity|]. split; [reflexivity|]. split; [reflexivity|].
  split; [reflexivity|].
  exact (bind_totp_failure_keeps_success sample_str
           (sample_run None (inr "TimeoutException")) "TimeoutException"
           sample_world (Some "h1:1080") _ eq_refl eq_refl eq_refl eq_refl).
Defined.

(** The sample job, evaluated: the account file gains the record, the TOTP
    file stays empty. *)
Example sample_totp_failure_files :
  files (worker_job sample_str (sample_run None (inr "TimeoutException"))
           sample_world) =
  {| accounts_file :=
       Some [FIELDNAMES;
             ["coolalex123@outlook.com"; "aB3!efghijkl"; "Alex"; "Smith";
              "1990"; "2"; "28"; ""; "2025-01-01 10:00:00"; "12.5"]];
     totp_file := Entries [] |}.
Proof. by vm_compute. Qed.

End JobFacts.

(** ** The worker loop *)

Section WorkerFacts.
Import AccountManager Job.
Variable str : exn -> string.
Variable env : nat -> run.
Implicit Types (r : run) (w : world).

(** Whatever happens in a job, the worker queues one result for it, and a
    session that was started has been quit. *)
Lemma worker_job_shape r w :
  (∃ result, result_queue (worker_job str r w) = result_queue w ++ [result]) ∧
  (drivers (worker_job str r w) = drivers w ∨
   ∃ proxy, drivers (worker_job str r w)
            = drivers w ++ [DriverStarted proxy; DriverQuit]).
Proof.
  unfold worker_job.
  destruct (ProxyManager.get_next_proxy (proxy_manager w)) as [[e|proxy] pm].
  - split; [by eexists | by left].
  - destruct (driver_start r) as [text|].
    + split; [by eexists | by left].
    + cbn [log files proxy_manager result_queue drivers].
      destruct (if bool_decide _ then _ else _) as [files' [e|]].
      * split; [by eexists|]. right. exists proxy. cbn. by rewrite <- app_assoc.
      * split; [by eexists|]. right. exists proxy. cbn. by rewrite <- app_assoc.
Qed.


Lemma worker_job_sessions r w :
  (started (drivers (worker_job str r w)) + quit (drivers w) =
   quit (drivers (worker_job str r w)) + started (drivers w))%nat.
Proof.
  destruct (worker_job_shape r w) as [_ [->|[proxy ->]]]; [lia|].
  unfold started, quit. rewrite !filter_app, !length_app.
  rewrite (filter_cons_True (λ e, e ≠ DriverQuit)) by done.
  rewrite (filter_cons_False (λ e, e ≠ DriverQuit)) by (intros H; by apply H).
  rewrite (filter_cons_False (λ e, e = DriverQuit)) by done.
  rewrite (filter_cons_True (λ e, e = DriverQuit)) by done.
  simpl. lia.
Qed.



End WorkerFacts.

Section WorkerSample.
Import AccountManager Job.

(** The sample batch run by one worker, evaluated: four results, the first
    and third with an error, and the two successful accounts stored. *)
Example sample_batch_result :
  let w := worker sample_str sample_env (seq 0 4) sample_world in
  (λ res, (res !! "error", res !! "elapsed_time")) <$> result_queue w =
    [(Some "TimeoutException", Some "12.5"); (None, Some "12.5");
     (Some "TimeoutException", Some "12.5"); (None, Some "12.5")] ∧
  length (load_accounts (files w)) = 2%nat ∧
  started (drivers w) = 4%nat ∧ quit (drivers w) = 4%nat.
Proof. by vm_compute. Qed.

End WorkerSample.

(** * Further properties *)

(** ** The generators, continued *)

Section MoreGenerators.
Import Random OutlookCreator.

Lemma swap_Permutation {A} (x : list A) i j : swap x i j ≡ₚ x.
Proof.
  unfold swap. destruct (x !! i) as [a|] eqn:Hi; [|done].
  destruct (x !! j) as [b|] eqn:Hj; [|done].
  by apply Permutation_insert_swap.
Qed.

Lemma shuffle_Permutation {A} (x : list A) g : (shuffle x g).1 ≡ₚ x.
Proof.
  unfold shuffle. generalize (length x - 1)%nat as i. intros i.
  revert x g. induction i as [|i IH]; intros x g; [done|].
  simpl. rewrite IH. apply swap_Permutation.
Qed.

Lemma choices_Forall {A} (d : A) seq n g :
  seq ≠ [] -> Forall (λ c, c ∈ seq) (choices d seq n g).1.
Proof.
  intros Hne. revert g. induction n as [|n IH]; intros g; [by constructor|].
  cbn [choices]. pose proof (choice_elem_of d seq g Hne) as Hc.
  destruct (choice d seq g) as [c g1].
  specialize (IH g1). destruct (choices d seq n g1) as [cs g2].
  by constructor.
Qed.

(** X1: the password is a rearrangement of one draw from each class followed by
    the filling draws from the union alphabet; so all of its characters
    belong to that alphabet. *)
Theorem generate_random_password_composition (n : Z) (g : rng) :
  let pw := list_ascii_of_string (generate_random_password n g).1 in
  (∃ c1 c2 c3 c4 rest,
     pw ≡ₚ [c1; c2; c3; c4] ++ rest ∧
     c1 ∈ lowercase ∧ c2 ∈ uppercase ∧ c3 ∈ digits ∧ c4 ∈ special ∧
     length rest = Z.to_nat (n - 4) ∧ Forall (λ c, c ∈ all_chars) rest) ∧
  Forall (λ c, c ∈ all_chars) pw.
Proof.
  unfold generate_random_password, password_chars.
  pose proof (choice_elem_of filler lowercase g) as H1.
  destruct (choice filler lowercase g) as [c1 g1].
  pose proof (choice_elem_of filler uppercase g1) as H2.
  destruct (choice filler uppercase g1) as [c2 g2].
  pose proof (choice_elem_of filler digits g2) as H3.
  destruct (choice filler digits g2) as [c3 g3].
  pose proof (choice_elem_of filler special g3) as H4.
  destruct (choice filler special g3) as [c4 g4].
  pose proof (choices_length filler all_chars
                (Z.to_nat (n - Z.of_nat (length [c1; c2; c3; c4]))) g4) as Hlen.
  pose proof (choices_Forall filler all_chars
                (Z.to_nat (n - Z.of_nat (length [c1; c2; c3; c4]))) g4) as Hall.
  destruct (choices filler all_chars _ g4) as [rest g5].
  pose proof (shuffle_Permutation ([c1; c2; c3; c4] ++ rest) g5) as Hperm.
  destruct (shuffle ([c1; c2; c3; c4] ++ rest) g5) as [pw g6].
  cbn [fst] in *. cbv zeta.
  rewrite list_ascii_of_string_of_list_ascii.
  specialize (H1 ltac:(done)). specialize (H2 ltac:(done)).
  specialize (H3 ltac:(done)). specialize (H4 ltac:(done)).
  specialize (Hall ltac:(done)).
  split.
  - exists c1, c2, c3, c4, rest. repeat split; try done.
  - rewrite Hperm. apply Forall_app. split; [|done].
    unfold all_chars.
    repeat (apply Forall_cons; split; [rewrite !elem_of_app; tauto|]).
    apply Forall_nil_2.
Qed.

(** Names come from the two fixed lists. *)
Lemma generate_random_name_elem_of g :
  let '(first_name, last_name) := (generate_random_name g).1 in
  first_name ∈ first_names ∧ last_name ∈ last_names.
Proof.
  unfold generate_random_name.
  pose proof (choice_elem_of "" first_names g ltac:(discriminate)) as Hf.
  destruct (choice "" first_names g) as [f g1].
  pose proof (choice_elem_of "" last_names g1 ltac:(discriminate)) as Hl.
  by destruct (choice "" last_names g1) as [l g2].
Qed.

Lemma list_ascii_of_string_app (s1 s2 : string) :
  list_ascii_of_string (s1 +:+ s2)
  = list_ascii_of_string s1 ++ list_ascii_of_string s2.
Proof. induction s1 as [|c s1 IH]; [done | simpl; by rewrite IH]. Qed.

Lemma list_ascii_of_string_length (s : string) :
  length (list_ascii_of_string s) = String.length s.
Proof. induction s as [|c s IH]; [done | simpl; by rewrite IH]. Qed.

(** [''.join(parts)] holds the characters of the parts, in order. *)
Lemma list_ascii_of_string_concat (parts : list string) :
  list_ascii_of_string (String.concat "" parts)
  = mjoin (list_ascii_of_string <$> parts).
Proof.
  induction parts as [|x parts IH]; [done|].
  destruct parts as [|y parts].
  - simpl. by rewrite app_nil_r.
  - change (String.concat "" (x :: y :: parts))
      with (x +:+ "" +:+ String.concat "" (y :: parts)).
    rewrite !list_ascii_of_string_app, IH. done.
Qed.

Lemma text_ok_spec cls lo hi s :
  text_ok cls lo hi s = true ->
  Forall (λ c, c ∈ cls) (list_ascii_of_string s) ∧
  (lo <= String.length s <= hi)%nat.
Proof.
  unfold text_ok. rewrite !andb_true_iff, forallb_forall.
  intros [[Hall Hlo%Nat.leb_le] Hhi%Nat.leb_le]. split; [|done].
  apply Forall_forall. intros c Hc%list_elem_of_In.
  specialize (Hall c Hc). by apply bool_decide_eq_true in Hall.
Qed.

Lemma words_ok w : w ∈ words -> text_ok lowercase 3 7 w = true.
Proof.
  assert (forallb (text_ok lowercase 3 7) words = true) as H by (by vm_compute).
  rewrite forallb_forall in H. intros Hw%list_elem_of_In. by apply H.
Qed.

Lemma first_names_ok f :
  f ∈ first_names -> text_ok lowercase 4 7 (lower f) = true.
Proof.
  assert (forallb (λ f, text_ok lowercase 4 7 (lower f)) first_names = true)
    as H by (by vm_compute).
  rewrite forallb_forall in H. intros Hf%list_elem_of_In. by apply H.
Qed.

Lemma numbers_ok (n : Z) :
  100 <= n <= 9999 -> text_ok digits 3 4 (pretty n) = true.
Proof.
  assert (forallb (λ n : Z, text_ok digits 3 4 (pretty n)) (seqZ 100 9900) = true)
    as H by (by vm_compute).
  rewrite forallb_forall in H. intros Hn. apply H.
  apply list_elem_of_In, elem_of_seqZ. lia.
Qed.

Lemma concat_three (P : ascii -> Prop) (a b c : string) (parts : list string) :
  parts ≡ₚ [a; b; c] ->
  Forall P (list_ascii_of_string a) ->
  Forall P (list_ascii_of_string b) ->
  Forall P (list_ascii_of_string c) ->
  Forall P (list_ascii_of_string (String.concat "" parts)) ∧
  String.length (String.concat "" parts)
  = (String.length a + String.length b + String.length c)%nat.
Proof.
  intros Hperm Ha Hb Hc.
  rewrite <- list_ascii_of_string_length, list_ascii_of_string_concat.
  rewrite Hperm. cbn [fmap list_fmap mjoin list_join].
  rewrite app_nil_r, !Forall_app, !length_app, !list_ascii_of_string_length.
  split; [done | lia].
Qed.

(** X2: the login handle is a word, a lowered first name and a number of three
    or four digits, joined in some order; it consists of lowercase letters
    and digits only and is 10 to 18 characters long. *)
Theorem generate_random_email_shape (g : rng) :
  let email_name := (generate_random_email g).1 in
  (∃ word first_name number parts,
     word ∈ words ∧ first_name ∈ first_names ∧ 100 <= number <= 9999 ∧
     parts ≡ₚ [word; lower first_name; pretty number] ∧
     email_name = String.concat "" parts) ∧
  Forall (λ c, c ∈ lowercase ++ digits) (list_ascii_of_string email_name) ∧
  (10 <= String.length email_name <= 18)%nat.
Proof.
  unfold generate_random_email.
  pose proof (choice_elem_of "" words g ltac:(discriminate)) as Hw.
  destruct (choice "" words g) as [word g1].
  pose proof (generate_random_name_elem_of g1) as Hn.
  destruct (generate_random_name g1) as [[first_name last_name] g2].
  destruct Hn as [Hf _].
  pose proof (randint_bounds 100 9999 g2 ltac:(lia)) as Hnum.
  destruct (randint 100 9999 g2) as [number g3].
  pose proof (shuffle_Permutation [word; lower first_name; pretty number] g3)
    as Hperm.
  destruct (shuffle [word; lower first_name; pretty number] g3) as [parts g4].
  cbn [fst] in *. cbv zeta.
  destruct (text_ok_spec _ _ _ _ (words_ok word Hw)) as [Hw1 Hw2].
  destruct (text_ok_spec _ _ _ _ (first_names_ok first_name Hf)) as [Hf1 Hf2].
  destruct (text_ok_spec _ _ _ _ (numbers_ok number Hnum)) as [Hn1 Hn2].
  split.
  { exists word, first_name, number, parts.
    split; [exact Hw|]. split; [exact Hf|]. split; [exact Hnum|].
    split; [exact Hperm | reflexivity]. }
  destruct (concat_three (λ c, c ∈ lowercase ++ digits) _ _ _ _ Hperm)
    as [Hchars Hlen].
  - eapply Forall_impl; [exact Hw1|]. intros c Hc. apply elem_of_app. by left.
  - eapply Forall_impl; [exact Hf1|]. intros c Hc. apply elem_of_app. by left.
  - eapply Forall_impl; [exact Hn1|]. intros c Hc. apply elem_of_app. by right.
  - split; [exact Hchars|]. rewrite Hlen. lia.
Qed.

End MoreGenerators.

(** ** ProxyManager, continued *)

Section MoreProxy.
Import ProxyManager.
Implicit Types (pm : t) (ps : list string).

Lemma take_proxies_segment ps i k :
  (i < length ps)%nat -> (i + k <= length ps)%nat ->
  take_proxies k {| proxies := ps; current_index := i |} =
    (Some <$> take k (drop i ps),
     {| proxies := ps; current_index := (i + k) `mod` length ps |}).
Proof.
  revert i. induction k as [|k IH]; intros i Hi Hik.
  - simpl. by rewrite Nat.add_0_r, Nat.mod_small.
  - destruct (lookup_lt_is_Some_2 ps i Hi) as [p Hp].
    cbn [take_proxies]. unfold get_next_proxy. cbn [proxies current_index].
    rewrite Hp. destruct ps as [|p0 ps0] eqn:Hps; [simpl in Hi; lia|].
    rewrite <- Hps in *. clear Hps.
    rewrite (drop_S ps p i Hp). cbn [take fmap list_fmap].
    destruct k as [|k].
    + simpl. by rewrite Nat.add_1_r.
    + rewrite (Nat.mod_small (i + 1)) by lia.
      rewrite IH by lia.
      by replace (i + 1 + S k)%nat with (i + S (S k))%nat by lia;
        replace (i + 1)%nat with (S i) by lia.
Qed.

Lemma take_proxies_app (a b : nat) pm l1 pm1 :
  take_proxies a pm = (l1, pm1) -> length l1 = a ->
  take_proxies (a + b) pm = (l1 ++ (take_proxies b pm1).1, (take_proxies b pm1).2).
Proof.
  revert pm l1. induction a as [|a IH]; intros pm l1 Ha Hlen.
  - simpl in Ha. injection Ha as <- <-. simpl. by destruct (take_proxies b pm).
  - cbn [take_proxies Nat.add] in *.
    destruct (get_next_proxy pm) as [[e|p] pm'].
    + injection Ha as <- <-. done.
    + destruct (take_proxies a pm') as [ps pm''] eqn:Hrec.
      injection Ha as <- <-. simpl in Hlen.
      rewrite (IH pm' ps Hrec) by lia. done.
Qed.

(** X3: a full round: from any cursor position, as many calls as there are
    endpoints return every endpoint once, starting at the cursor and wrapping
    round, and leave the manager as it was. *)
Theorem get_next_proxy_full_round pm :
  wf pm -> proxies pm ≠ [] ->
  take_proxies (length (proxies pm)) pm =
    (Some <$> (drop (current_index pm) (proxies pm) ++
               take (current_index pm) (proxies pm)), pm).
Proof.
  destruct pm as [ps i]. unfold wf. cbn [proxies current_index].
  intros [[-> _]|Hi] Hne; [done|].
  replace (length ps) with ((length ps - i) + i)%nat at 1 by lia.
  pose proof (take_proxies_segment ps i (length ps - i) Hi ltac:(lia)) as H1.
  replace (i + (length ps - i))%nat with (length ps) in H1 by lia.
  rewrite Nat.Div0.mod_same in H1.
  rewrite (take_proxies_app _ _ _ _ _ H1)
    by (rewrite length_fmap, length_take, length_drop; lia).
  destruct i as [|i'].
  - cbn [take_proxies fst snd]. rewrite Nat.sub_0_r, drop_0, take_0.
    rewrite take_ge by lia. by rewrite !app_nil_r.
  - rewrite (take_proxies_segment ps 0 (S i')) by lia.
    cbn [fst snd]. rewrite Nat.add_0_l, Nat.mod_small by lia.
    rewrite drop_0, fmap_app. f_equal. f_equal.
    by rewrite take_ge by (rewrite length_drop; lia).
Qed.

Lemma get_next_proxy_full_round_witness :
  let pm := {| proxies := ["a"; "b"; "c"]; current_index := 1 |} in
  wf pm ∧ proxies pm ≠ [] ∧
  take_proxies 3 pm = ([Some "b"; Some "c"; Some "a"], pm).
Proof.
  cbv zeta.
  assert (wf {| proxies := ["a"; "b"; "c"]; current_index := 1 |}) as Hwf
    by (right; simpl; lia).
  split; [exact Hwf|]. split; [discriminate|].
  exact (get_next_proxy_full_round
           {| proxies := ["a"; "b"; "c"]; current_index := 1 |}
           Hwf ltac:(discriminate)).
Defined.

Lemma wf_do_op strip pm o : wf pm -> wf (do_op strip pm o).
Proof.
  destruct o as [proxy| |file]; simpl.
  - apply wf_add_proxy.
  - apply wf_get_next_proxy.
  - apply wf_load_from_file.
Qed.

Lemma wf_do_ops strip pm ops : wf pm -> wf (foldl (do_op strip) pm ops).
Proof.
  revert pm. induction ops as [|o ops IH]; intros pm Hwf; [done|].
  simpl. by apply IH, wf_do_op.
Qed.

(** X4: whatever sequence of [add_proxy], [get_next_proxy] and
    [load_from_file] calls a manager has gone through since it was built,
    [get_next_proxy] does not raise: it returns [None] exactly when the pool
    is empty and otherwise an endpoint of the pool. *)
Theorem get_next_proxy_never_raises strip ps (ops : list op) :
  let pm := foldl (do_op strip) (init ps) ops in
  match (get_next_proxy pm).1 with
  | inl _ => False
  | inr None => proxies pm = []
  | inr (Some proxy) => proxy ∈ proxies pm
  end.
Proof.
  cbv zeta. pose proof (wf_do_ops strip (init ps) ops (wf_init ps)) as Hwf.
  destruct (foldl (do_op strip) (init ps) ops) as [qs i].
  destruct qs as [|q qs]; [done|].
  destruct (get_next_proxy_nonempty _ Hwf ltac:(done)) as (proxy & Hp & ->).
  simpl. by eapply list_elem_of_lookup_2.
Qed.

(** X5: [main]: when both [--proxy] and a readable [--proxy-file] are given,
    the pool is the stripped non-blank lines of the file and nothing else:
    the single proxy is dropped unless a line names it.  With an unreadable
    file the single proxy stays; with neither option the pool is empty. *)
Theorem setup_proxy_file_replaces strip (p : string) (lines : list string) :
  p ≠ "" ->
  setup strip (Some p) (Some (Some lines)) = setup strip None (Some (Some lines)) ∧
  proxies (setup strip (Some p) (Some (Some lines)))
    = filter (λ l, l ≠ "") (strip <$> lines) ∧
  current_index (setup strip (Some p) (Some (Some lines))) = 0%nat ∧
  setup strip (Some p) (Some None) = init [p] ∧
  setup strip (Some p) None = init [p] ∧
  setup strip None None = init [] ∧
  setup strip (Some "") None = init [].
Proof.
  intros Hp. unfold setup. rewrite bool_decide_true by done.
  rewrite bool_decide_false by (intros H; by apply H).
  repeat split.
Qed.

Lemma setup_proxy_file_replaces_witness :
  "10.0.0.1:1080" ≠ "" ∧
  let lines := ["10.0.0.2:1080"; ""; "10.0.0.3:1080"] in
  proxies (setup id (Some "10.0.0.1:1080") (Some (Some lines)))
    = ["10.0.0.2:1080"; "10.0.0.3:1080"] ∧
  setup id (Some "10.0.0.1:1080") (Some None) = init ["10.0.0.1:1080"].
Proof.
  split; [done|]. cbv zeta.
  destruct (setup_proxy_file_replaces id "10.0.0.1:1080"
              ["10.0.0.2:1080"; ""; "10.0.0.3:1080"] ltac:(done))
    as (_ & Hps & _ & Hunreadable & _).
  split; [exact Hps | exact Hunreadable].
Defined.

End MoreProxy.

(** ** AccountManager, continued *)

Section MoreStore.
Import AccountManager.
Implicit Types (info : gmap string string) (r : list string)
  (rows : list (list string)) (s : store) (d : rowdict).

(** X6: [ensure_files_exist] creates what is missing and touches nothing that
    exists: a second call changes nothing, both files exist afterwards, and
    neither the rows [load_accounts] returns nor the TOTP entries read
    change. *)
Theorem ensure_files_exist_keeps_content s :
  let s' := ensure_files_exist s in
  ensure_files_exist s' = s' ∧
  accounts_file s' = Some (default [FIELDNAMES] (accounts_file s)) ∧
  totp_file s' ≠ Missing ∧
  load_accounts s' = load_accounts s ∧
  read_totp (totp_file s') = read_totp (totp_file s).
Proof.
  destruct s as [[recs|] [| |data]]; cbv zeta; repeat split; done.
Qed.

(** X7: a record saved while the account file is missing starts a file without
    a header: [load_accounts] takes the record for the header and returns
    no row, also after a later [ensure_files_exist]. *)
Theorem save_account_missing_file now info (t : json_file) :
  let s' := (save_account now info
               {| accounts_file := None; totp_file := t |}).1 in
  accounts_file s' = Some [(λ k, get info k "") <$> FIELDNAMES] ∧
  load_accounts s' = [] ∧
  load_accounts (ensure_files_exist s') = [].
Proof.
  cbv zeta. unfold save_account. cbn [accounts_file default app].
  destruct (truthy (info !! "totp_secret")), (info !! "email"); done.
Qed.

(** X8: without an [email] key [save_account] has already appended the record,
    with an empty email, when it raises [KeyError]; the TOTP file is not
    written. *)
Theorem save_account_without_email now info s :
  info !! "email" = None ->
  save_account now info s =
    ({| accounts_file :=
          Some (default [] (accounts_file s) ++
                  [(λ k, get info k "") <$> FIELDNAMES]);
        totp_file := totp_file s |}, Some (KeyError "email")) ∧
  ((λ k, get info k "") <$> FIELDNAMES) !! 0%nat = Some "".
Proof.
  intros He. unfold save_account. rewrite He.
  split; [by destruct (truthy _)|]. simpl. unfold get. by rewrite He.
Qed.

Lemma save_account_without_email_witness :
  sample_no_email !! "email" = None ∧
  save_account "t" sample_no_email fresh_store =
    ({| accounts_file :=
          Some [FIELDNAMES; [""; "pw"; ""; ""; ""; ""; ""; ""; ""; ""]];
        totp_file := Entries [] |}, Some (KeyError "email")).
Proof.
  split; [reflexivity|].
  destruct (save_account_without_email "t" sample_no_email fresh_store
              eq_refl) as [-> _].
  reflexivity.
Defined.

Lemma update_loop_without_email info accounts :
  info !! "email" = None -> accounts ≠ [] ->
  update_loop info accounts = inl (KeyError "email").
Proof.
  intros He Hne. destruct accounts as [|account accounts]; [done|].
  simpl. rewrite He. by destruct (cells account !! "email").
Qed.

Lemma update_loop_without_password info accounts :
  info !! "new_password" = None ->
  (∃ key, update_loop info accounts = inl (KeyError key)) ∨
  update_loop info accounts = inr (false, accounts).
Proof.
  intros Hp. induction accounts as [|account accounts IH]; [by right|].
  simpl. destruct (cells account !! "email") as [v|]; [|left; by eexists].
  destruct (info !! "email") as [e|]; [|left; by eexists].
  case_bool_decide; [rewrite Hp; left; by eexists|].
  destruct IH as [[key ->] | ->]; [left; by eexists | by right].
Qed.

(** X9: a change without an [email] or without a [new_password] key makes
    [update_account] raise [KeyError] before anything is written: the store
    is as it was. *)
Theorem update_account_missing_key now info s :
  info !! "email" = None ∨ info !! "new_password" = None ->
  ∃ key, update_account now info s = (s, Some (KeyError key)).
Proof.
  intros [He|Hp]; unfold update_account.
  - destruct (read_accounts (accounts_file s)) as [|a l] eqn:Hacc.
    + simpl. unfold new_account. rewrite He. by eexists.
    + rewrite update_loop_without_email by done. by eexists.
  - destruct (update_loop_without_password info
                (read_accounts (accounts_file s)) Hp) as [[key ->] | ->].
    + by eexists.
    + unfold new_account. rewrite Hp.
      destruct (info !! "email"); by eexists.
Qed.

Lemma update_account_missing_key_witness :
  (sample_no_password !! "email" = None ∨
   sample_no_password !! "new_password" = None) ∧
  ∃ key, update_account "t" sample_no_password sample_store
         = (sample_store, Some (KeyError key)).
Proof.
  split; [by right|].
  exact (update_account_missing_key "t" sample_no_password
           sample_store (or_intror eq_refl)).
Defined.

Lemma dict_to_list_length d r : dict_to_list d = inr r -> length r = 10%nat.
Proof.
  unfold dict_to_list. case_bool_decide; [|done]. intros [= <-]. done.
Qed.

Lemma writerows_length_10 (accounts : list rowdict) :
  Forall (λ r, length r = 10%nat) (writerows accounts).1.
Proof.
  induction accounts as [|d accounts IH]; simpl; [done|].
  destruct (dict_to_list d) as [e|r] eqn:Hd; [done|].
  destruct (writerows accounts) as [out e]. simpl in *.
  constructor; [by eapply dict_to_list_length | done].
Qed.

(** X10: whatever the account file held, [update_account] either raises before
    it writes and leaves the store as it was, or leaves an account file with
    the standard header and ten fields in every record; the latter in
    particular whenever it returns without an exception. *)
Theorem update_account_leaves_well_formed now info s :
  let '(s', raised) := update_account now info s in
  (s' = s ∧ raised ≠ None) ∨ wf_store s'.
Proof.
  unfold update_account.
  destruct (update_loop info _) as [e|[updated accounts1]]; [by left|].
  destruct (if updated then _ else _) as [e|accounts2]; [by left|].
  pose proof (writerows_length_10 accounts2) as Hlen.
  destruct (writerows accounts2) as [out err]. simpl in Hlen.
  assert (wf_file (FIELDNAMES :: out)) as Hwf by (by exists out).
  destruct err as [e|]; [right; by eexists|].
  destruct (truthy _); right; by eexists.
Qed.

End MoreStore.

(** ** What an update changes, and what it leaves alone *)

Section UpdateScope.
Import AccountManager.
Implicit Types (info : gmap string string) (r : list string)
  (rows : list (list string)) (s : store) (d : rowdict).

Lemma overwrite_record_other_fields info r k :
  k ≠ 1%nat -> k ≠ 7%nat -> overwrite_record info r !! k = r !! k.
Proof.
  intros H1 H7. unfold overwrite_record.
  destruct (truthy _); by rewrite !list_lookup_insert_ne by done.
Qed.

Lemma upsert_records_prefix info rows :
  ∃ tail,
    upsert_records info rows = take (length rows) (upsert_records info rows) ++ tail ∧
    (tail = [] ∨ tail = [minimal_record info]) ∧
    Forall2 (λ r r',
               (r !! 0%nat ≠ info !! "email" -> r' = r) ∧
               ∀ k, k ≠ 1%nat -> k ≠ 7%nat -> r' !! k = r !! k)
            rows (take (length rows) (upsert_records info rows)).
Proof.
  induction rows as [|r rows (tail & Heq & Htail & IH)].
  - exists [minimal_record info]. split; [done|]. split; [by right|]. constructor.
  - cbn [upsert_records]. case_bool_decide as Hr.
    + exists []. cbn [length take].
      rewrite take_ge by done. split; [by rewrite app_nil_r|].
      split; [by left|]. constructor.
      * split; [done|]. apply overwrite_record_other_fields.
      * apply Forall2_same_length_lookup. split; [done|].
        intros i x y Hx Hy. split; intros; congruence.
    + exists tail. cbn [length take]. split; [simpl; by rewrite <- Heq|].
      split; [done|]. by constructor.
Qed.

(** X11: on a well-formed store an update never removes or reorders rows and
    never changes a row of another email; in the row it rewrites, every
    field but the password and the totp_secret stays; and at most one row,
    the minimal one, is added at the end. *)
Theorem update_account_scope now info e X rows s :
  accounts_file s = Some (FIELDNAMES :: rows) ->
  Forall (λ r, length r = 10%nat) rows ->
  info !! "email" = Some e ->
  info !! "new_password" = Some X ->
  ∃ rows' tail,
    accounts_file (update_account now info s).1 = Some (FIELDNAMES :: rows' ++ tail) ∧
    (tail = [] ∨ tail = [minimal_record info]) ∧
    Forall2 (λ r r',
               (r !! 0%nat ≠ Some e -> r' = r) ∧
               ∀ k, k ≠ 1%nat -> k ≠ 7%nat -> r' !! k = r !! k)
            rows rows'.
Proof.
  intros Hs Hrows He HX.
  rewrite (update_account_records now info e X rows s He HX Hs Hrows).
  destruct (upsert_records_prefix info rows) as (tail & Heq & Htail & H2).
  exists (take (length rows) (upsert_records info rows)), tail.
  cbn [fst accounts_file]. rewrite <- Heq. rewrite He in H2. done.
Qed.

Lemma update_account_scope_witness :
  accounts_file sample_store = Some (FIELDNAMES :: sample_rows) ∧
  Forall (λ r, length r = 10%nat) sample_rows ∧
  sample_change "a@outlook.com" "X" "" !! "email" = Some "a@outlook.com" ∧
  sample_change "a@outlook.com" "X" "" !! "new_password" = Some "X" ∧
  ∃ rows' tail,
    accounts_file
      (update_account "t" (sample_change "a@outlook.com" "X" "") sample_store).1
      = Some (FIELDNAMES :: rows' ++ tail) ∧
    (tail = [] ∨ tail = [minimal_record (sample_change "a@outlook.com" "X" "")]) ∧
    Forall2 (λ r r',
               (r !! 0%nat ≠ Some "a@outlook.com" -> r' = r) ∧
               ∀ k, k ≠ 1%nat -> k ≠ 7%nat -> r' !! k = r !! k)
            sample_rows rows'.
Proof.
  assert (Forall (λ r, length r = 10%nat) sample_rows) as Hrows
    by (by repeat constructor).
  split; [reflexivity|]. split; [exact Hrows|].
  split; [reflexivity|]. split; [reflexivity|].
  exact (update_account_scope "t" (sample_change "a@outlook.com" "X" "")
           "a@outlook.com" "X" sample_rows sample_store
           eq_refl Hrows eq_refl eq_refl).
Defined.

(** *** The TOTP entries *)

Lemma update_totp_emails e t time data :
  t_email <$> update_totp e t time data =
    (t_email <$> data) ++ (if bool_decide (e ∈ t_email <$> data) then [] else [e]).
Proof.
  induction data as [|x data IH]; [done|].
  cbn [update_totp]. destruct (decide (t_email x = e)) as [Hx|Hx].
  - rewrite bool_decide_true by done. rewrite fmap_cons. cbn [t_email].
    rewrite (bool_decide_true (e ∈ _)) by (rewrite fmap_cons, Hx; by left).
    by rewrite app_nil_r.
  - rewrite bool_decide_false by done. rewrite !fmap_cons, IH.
    cbn [app]. f_equal. f_equal.
    destruct (decide (e ∈ t_email <$> data)) as [Hin|Hin].
    + rewrite !bool_decide_true; [done | by right | done].
    + rewrite !bool_decide_false; [done | | done].
      intros [?|?]%elem_of_cons; congruence.
Qed.

Lemma update_totp_other e e' t time data :
  e' ≠ e ->
  filter (λ x, t_email x = e') (update_totp e t time data)
  = filter (λ x, t_email x = e') data.
Proof.
  intros Hne. induction data as [|x data IH]; simpl.
  - by rewrite filter_cons_False.
  - case_bool_decide as Hx.
    + rewrite !filter_cons. simpl. rewrite !decide_False by congruence. done.
    + by rewrite !filter_cons, IH.
Qed.

Lemma update_totp_first e t time data :
  ∃ others,
    filter (λ x, t_email x = e) (update_totp e t time data)
    = {| t_email := e; t_secret := t; t_time := time |} :: others ∧
    others = tail (filter (λ x, t_email x = e) data).
Proof.
  induction data as [|x data (others & IH & Ho)]; simpl.
  - exists []. by rewrite filter_cons_True.
  - case_bool_decide as Hx.
    + eexists. rewrite !filter_cons_True by done. rewrite Hx. done.
    + exists others. by rewrite !filter_cons_False.
Qed.

(** X12: with a non-empty secret, [update_account] on a well-formed store
    keeps the TOTP file in step with the account file: the first account row
    and the first TOTP entry of the email both carry the new secret, the
    entries of other emails are untouched, and the emails of the TOTP file
    stay in order, the changed email being added at the end only when it had
    no entry; so a TOTP file with one entry per email keeps that. *)
Theorem update_account_totp_in_step now info e X t rows s :
  accounts_file s = Some (FIELDNAMES :: rows) ->
  Forall (λ r, length r = 10%nat) rows ->
  info !! "email" = Some e ->
  info !! "new_password" = Some X ->
  info !! "totp_secret" = Some t ->
  t ≠ "" ->
  let s' := (update_account now info s).1 in
  let old := read_totp (totp_file s) in
  let new := read_totp (totp_file s') in
  (∃ d ds, rows_of e (load_accounts s') = d :: ds ∧
           row_totp d = Some (Some t)) ∧
  (∃ x xs, filter (λ x, t_email x = e) new = x :: xs ∧ t_secret x = t ∧
           xs = tail (filter (λ x, t_email x = e) old)) ∧
  (∀ e', e' ≠ e ->
     filter (λ x, t_email x = e') new = filter (λ x, t_email x = e') old) ∧
  t_email <$> new =
    (t_email <$> old) ++ (if bool_decide (e ∈ t_email <$> old) then [] else [e]) ∧
  (NoDup (t_email <$> old) -> NoDup (t_email <$> new)).
Proof.
  intros Hs Hrows He HX Ht Hne. cbv zeta.
  rewrite (update_account_records now info e X rows s He HX Hs Hrows).
  cbn [fst]. rewrite Ht. cbn [truthy]. rewrite bool_decide_true by done.
  cbn [totp_file read_totp].
  split.
  { erewrite (load_accounts_wf _ (upsert_records info rows));
      [|reflexivity|by apply upsert_records_length_10].
    rewrite rows_of_zip_row by (by apply upsert_records_length_10).
    pose proof (upsert_records_same info e rows He) as Hsame.
    destruct (records_of e rows) as [|r others] eqn:Hrec.
    - rewrite Hsame, records_of_snoc.
      assert (records_of e rows = []) as -> by done.
      rewrite decide_True by (unfold minimal_record, get; by rewrite He).
      eexists _, _. split; [reflexivity|].
      destruct (zip_row_fields _ (minimal_record_length info)) as (_ & _ & ->).
      unfold minimal_record, get. by rewrite Ht.
    - destruct Hsame as [-> _].
      assert (r !! 0%nat = Some e ∧ r ∈ rows) as [_ Hin].
      { apply (list_elem_of_filter (λ r, r !! 0%nat = Some e)).
        unfold records_of in Hrec. rewrite Hrec. by left. }
      assert (length r = 10%nat) as Hr
        by (by eapply (proj1 (Forall_forall _ _) Hrows)).
      eexists _, _. split; [reflexivity|].
      assert (length (overwrite_record info r) = 10%nat) as Hr'.
      { unfold overwrite_record. destruct (truthy _); by rewrite !length_insert. }
      destruct (zip_row_fields _ Hr') as (_ & _ & ->).
      destruct (overwrite_record_fields info r Hr) as [_ ->].
      rewrite Ht. cbn [truthy]. rewrite bool_decide_true by done.
      unfold get. by rewrite Ht. }
  assert (get info "totp_secret" "" = t) as -> by (unfold get; by rewrite Ht).
  split.
  { destruct (update_totp_first e t (get info "update_time" now)
                (read_totp (totp_file s))) as (others & -> & ->).
    by eexists _, _. }
  split; [intros e' He'; by apply update_totp_other|].
  split; [apply update_totp_emails|].
  intros Hnd. rewrite update_totp_emails. case_bool_decide as Hin.
  - by rewrite app_nil_r.
  - apply NoDup_app. split; [done|]. split; [|apply NoDup_singleton].
    intros x Hx ->%list_elem_of_singleton. done.
Qed.

Lemma update_account_totp_in_step_witness :
  let info := sample_change "a@outlook.com" "X" "NEWSECRET" in
  accounts_file sample_store = Some (FIELDNAMES :: sample_rows) ∧
  Forall (λ r, length r = 10%nat) sample_rows ∧
  info !! "email" = Some "a@outlook.com" ∧
  info !! "new_password" = Some "X" ∧
  info !! "totp_secret" = Some "NEWSECRET" ∧
  "NEWSECRET" ≠ "" ∧
  let s' := (update_account "t" info sample_store).1 in
  (∃ d ds, rows_of "a@outlook.com" (load_accounts s') = d :: ds ∧
           row_totp d = Some (Some "NEWSECRET")) ∧
  t_email <$> read_totp (totp_file s') = ["a@outlook.com"].
Proof.
  cbv zeta.
  assert (Forall (λ r, length r = 10%nat) sample_rows) as Hrows
    by (by repeat constructor).
  split; [reflexivity|]. split; [exact Hrows|].
  split; [reflexivity|]. split; [reflexivity|]. split; [reflexivity|].
  split; [discriminate|].
  destruct (update_account_totp_in_step "t"
              (sample_change "a@outlook.com" "X" "NEWSECRET")
              "a@outlook.com" "X" "NEWSECRET" sample_rows sample_store
              eq_refl Hrows eq_refl eq_refl eq_refl ltac:(discriminate))
    as (Hrow & _ & _ & Hemails & _).
  split; [exact Hrow | exact Hemails].
Defined.

Lemma upsert_records_keeps_secret info rows :
  truthy (info !! "totp_secret") = false ->
  Forall2 (λ r r', r' !! 7%nat = r !! 7%nat)
          rows (take (length rows) (upsert_records info rows)).
Proof.
  intros Hf. induction rows as [|r rows IH]; [constructor|].
  cbn [upsert_records]. case_bool_decide as Hr; cbn [length take].
  - rewrite take_ge by done. constructor.
    + unfold overwrite_record. rewrite Hf. by rewrite list_lookup_insert_ne.
    + apply Forall2_same_length_lookup. split; [done|].
      intros i x y Hx Hy. congruence.
  - by constructor.
Qed.

Lemma row_totp_Forall2 rows rows' :
  Forall (λ r, length r = 10%nat) rows ->
  Forall (λ r, length r = 10%nat) rows' ->
  Forall2 (λ r r', r' !! 7%nat = r !! 7%nat) rows rows' ->
  (row_totp ∘ zip_row FIELDNAMES) <$> rows' = (row_totp ∘ zip_row FIELDNAMES) <$> rows.
Proof.
  intros Hrows Hrows' H2.
  induction H2 as [|r r' rows rows' Hr _ IH]; [done|].
  apply Forall_cons in Hrows as [Hr10 Hrows].
  apply Forall_cons in Hrows' as [Hr10' Hrows'].
  rewrite !fmap_cons, IH by done. f_equal. simpl.
  destruct (zip_row_fields r Hr10) as (_ & _ & ->).
  destruct (zip_row_fields r' Hr10') as (_ & _ & ->). by rewrite Hr.
Qed.

(** X13: a change whose [totp_secret] is empty (a failed TOTP bind) leaves the
    TOTP file as it is and keeps the totp_secret of every stored row,
    including the one whose password it rewrites. *)
Theorem update_account_keeps_secret now info e X rows s :
  accounts_file s = Some (FIELDNAMES :: rows) ->
  Forall (λ r, length r = 10%nat) rows ->
  info !! "email" = Some e ->
  info !! "new_password" = Some X ->
  truthy (info !! "totp_secret") = false ->
  let s' := (update_account now info s).1 in
  totp_file s' = totp_file s ∧
  row_totp <$> take (length rows) (load_accounts s') = row_totp <$> load_accounts s.
Proof.
  intros Hs Hrows He HX Hf. cbv zeta.
  rewrite (update_account_records now info e X rows s He HX Hs Hrows).
  cbn [fst totp_file]. rewrite Hf. split; [done|].
  pose proof (upsert_records_length_10 info rows Hrows) as Hrows'.
  erewrite (load_accounts_wf _ (upsert_records info rows)); [|reflexivity|done].
  rewrite (load_accounts_wf s rows) by done.
  rewrite <- fmap_take, <- !list_fmap_compose.
  apply row_totp_Forall2; [done | by apply Forall_take |].
  by apply upsert_records_keeps_secret.
Qed.

Lemma update_account_keeps_secret_witness :
  let info := sample_change "a@outlook.com" "X" "" in
  let s := (save_account "t0" (sample_record "a@outlook.com" "p1" "OLDSECRET")
              fresh_store).1 in
  accounts_file s =
    Some [FIELDNAMES;
          ["a@outlook.com"; "p1"; "Alex"; "Smith"; "1990"; "2"; "28";
           "OLDSECRET"; "2025-01-01 10:00:00"; "12.5"]] ∧
  Forall (λ r, length r = 10%nat)
    [["a@outlook.com"; "p1"; "Alex"; "Smith"; "1990"; "2"; "28";
      "OLDSECRET"; "2025-01-01 10:00:00"; "12.5"]] ∧
  info !! "email" = Some "a@outlook.com" ∧
  info !! "new_password" = Some "X" ∧
  truthy (info !! "totp_secret") = false ∧
  let s' := (update_account "t" info s).1 in
  totp_file s' = totp_file s ∧
  row_totp <$> take 1 (load_accounts s') = [Some (Some "OLDSECRET")].
Proof.
  cbv zeta.
  assert (Forall (λ r, length r = 10%nat)
    [["a@outlook.com"; "p1"; "Alex"; "Smith"; "1990"; "2"; "28";
      "OLDSECRET"; "2025-01-01 10:00:00"; "12.5"]]) as Hrows
    by (by repeat constructor).
  split; [reflexivity|]. split; [exact Hrows|].
  split; [reflexivity|]. split; [reflexivity|]. split; [reflexivity|].
  destruct (update_account_keeps_secret "t" (sample_change "a@outlook.com" "X" "")
              "a@outlook.com" "X"
              [["a@outlook.com"; "p1"; "Alex"; "Smith"; "1990"; "2"; "28";
                "OLDSECRET"; "2025-01-01 10:00:00"; "12.5"]]
              (save_account "t0" (sample_record "a@outlook.com" "p1" "OLDSECRET")
                 fresh_store).1
              eq_refl Hrows eq_refl eq_refl eq_refl) as [Htotp Hrow].
  split; [exact Htotp|]. etransitivity; [exact Hrow|]. by vm_compute.
Defined.

(** *** Export *)

Lemma row_get_zip_row r :
  length r = 10%nat ->
  row_get (zip_row FIELDNAMES r) "email" = r !! 0%nat ∧
  row_get (zip_row FIELDNAMES r) "password" = r !! 1%nat ∧
  row_get (zip_row FIELDNAMES r) "totp_secret" = r !! 7%nat.
Proof.
  intros H.
  destruct (length_10_inv r H) as (? & ? & ? & ? & ? & ? & ? & ? & ? & ? & ->).
  repeat split; by vm_compute.
Qed.

(** X14: [export_accounts] on a well-formed store writes, for the format
    ["csv"] in any letter case, a three-column header and one record of
    email, password and totp_secret per stored row, in order, and for every
    other format one line per stored row, the three fields joined by the
    separator and ended by a newline; a store without rows gives the header
    alone, or no line at all. *)
Theorem export_accounts_content (format_type : string) rows (t : json_file) :
  Forall (λ r, length r = 10%nat) rows ->
  let s := {| accounts_file := Some (FIELDNAMES :: rows); totp_file := t |} in
  let field (r : list string) (k : nat) := default "" (r !! k) in
  export_accounts format_type s =
    (if bool_decide (OutlookCreator.lower format_type = "csv")
     then CsvFile (["邮箱"; "密码"; "TOTP密钥"] ::
                   ((λ r, [field r 0; field r 1; field r 7]) <$> rows))
     else TextFile ((λ r, field r 0 +:+ "—-" +:+ field r 1 +:+ "—-" +:+
                          field r 7 +:+ newline) <$> rows))%nat ∧
  export_accounts "CSV" {| accounts_file := None; totp_file := t |}
    = CsvFile [["邮箱"; "密码"; "TOTP密钥"]] ∧
  export_accounts "text" {| accounts_file := None; totp_file := t |} = TextFile [] ∧
  export_accounts "json" {| accounts_file := Some [FIELDNAMES]; totp_file := t |}
    = TextFile [].
Proof.
  intros Hrows. cbv zeta. split; [|by vm_compute].
  unfold export_accounts. rewrite (load_accounts_wf _ rows) by done.
  rewrite <- !list_fmap_compose.
  case_bool_decide; f_equal; [f_equal|]; apply Forall_fmap_ext;
    (eapply Forall_impl; [exact Hrows|]); intros r Hr; simpl;
    destruct (row_get_zip_row r Hr) as (-> & -> & ->);
    destruct (length_10_inv r Hr) as (? & ? & ? & ? & ? & ? & ? & ? & ? & ? & ->);
    reflexivity.
Qed.

Lemma export_accounts_content_witness :
  Forall (λ r, length r = 10%nat) sample_rows ∧
  export_accounts "Csv" sample_store =
    CsvFile [["邮箱"; "密码"; "TOTP密钥"]; ["a@outlook.com"; "p1"; ""]] ∧
  export_accounts "text" sample_store =
    TextFile ["a@outlook.com—-p1—-" +:+ newline].
Proof.
  assert (Forall (λ r, length r = 10%nat) sample_rows) as Hrows
    by (by repeat constructor).
  split; [exact Hrows|].
  destruct (export_accounts_content "Csv" sample_rows (Entries []) Hrows)
    as [Hcsv _].
  destruct (export_accounts_content "text" sample_rows (Entries []) Hrows)
    as [Htext _].
  split; [exact Hcsv | exact Htext].
Defined.

End UpdateScope.

(** ** A record that is too long *)

Section LongRecord.
Import AccountManager.
Implicit Types (info : gmap string string) (r : list string)
  (rows : list (list string)) (s : store) (d : rowdict).

Lemma zip_row_email_key r :
  r ≠ [] -> cells (zip_row FIELDNAMES r) !! "email" = Some (r !! 0%nat).
Proof.
  intros Hne. destruct r as [|a0 r]; [done|].
  do 9 (destruct r as [|? r]; [by vm_compute|]).
  by vm_compute.
Qed.

Lemma zip_row_rest_long r :
  (10 < length r)%nat -> rest (zip_row FIELDNAMES r) ≠ None.
Proof.
  intros H. unfold zip_row. cbn [rest].
  change (length FIELDNAMES) with 10%nat.
  by rewrite (proj2 (Nat.ltb_lt _ _) H).
Qed.

Lemma dict_to_list_rest d : rest d ≠ None -> dict_to_list d = inl ValueError.
Proof.
  intros H. unfold dict_to_list. rewrite bool_decide_false; [done|].
  by intros [? _].
Qed.

Lemma update_loop_rest info accounts updated accounts' :
  update_loop info accounts = inr (updated, accounts') ->
  rest <$> accounts' = rest <$> accounts.
Proof.
  revert updated accounts'.
  induction accounts as [|d accounts IH]; intros updated accounts' H.
  - by injection H as <- <-.
  - cbn [update_loop] in H.
    destruct (cells d !! "email") as [v|]; [|done].
    destruct (info !! "email") as [e|]; [|done].
    case_bool_decide.
    + destruct (info !! "new_password") as [p|]; [|done].
      injection H as <- <-. rewrite !fmap_cons. f_equal.
      by destruct (truthy _).
    + destruct (update_loop info accounts) as [err|[u accs]]; [done|].
      injection H as <- <-. rewrite !fmap_cons. f_equal. by eapply IH.
Qed.

Lemma update_loop_total info e p accounts :
  info !! "email" = Some e -> info !! "new_password" = Some p ->
  Forall (λ d, is_Some (cells d !! "email")) accounts ->
  ∃ updated accounts', update_loop info accounts = inr (updated, accounts').
Proof.
  intros He Hp. induction 1 as [|d accounts [v Hv] _ (u & accs & IH)].
  - by eexists _, _.
  - cbn [update_loop]. rewrite Hv, He, Hp.
    case_bool_decide; [by eexists _, _|]. rewrite IH. by eexists _, _.
Qed.

Lemma update_loop_skip info e pre (tl : list rowdict) :
  info !! "email" = Some e ->
  Forall (λ r, length r = 10%nat) pre ->
  Forall (λ r, r !! 0%nat ≠ Some e) pre ->
  update_loop info ((zip_row FIELDNAMES <$> pre) ++ tl) =
    match update_loop info tl with
    | inl err => inl err
    | inr (updated, tl') => inr (updated, (zip_row FIELDNAMES <$> pre) ++ tl')
    end.
Proof.
  intros He Hlen Hno. induction Hlen as [|r pre Hr _ IH].
  - simpl. by destruct (update_loop info tl) as [|[??]].
  - apply Forall_cons in Hno as [Hr0 Hno].
    rewrite fmap_cons. cbn [app update_loop].
    rewrite zip_row_email_key by (by destruct r). rewrite He.
    rewrite bool_decide_false by congruence.
    rewrite (IH Hno). by destruct (update_loop info tl) as [|[??]].
Qed.

Lemma writerows_stops pre d (tl : list rowdict) :
  Forall (λ r, length r = 10%nat) pre ->
  rest d ≠ None ->
  writerows ((zip_row FIELDNAMES <$> pre) ++ d :: tl) = (pre, Some ValueError).
Proof.
  intros Hlen Hd. induction Hlen as [|r pre Hr _ IH].
  - simpl. by rewrite dict_to_list_rest.
  - rewrite fmap_cons. cbn [app writerows].
    by rewrite dict_to_list_zip_row, IH.
Qed.

(** X15: a record with more than ten fields in the account file: an update of
    an email that does not occur before that record raises [ValueError]
    while it writes the file back, and the file is left with the header and
    the records before the long one only; the long record and all records
    after it are gone.  The TOTP file is not touched. *)
Theorem update_account_long_record now info e X pre bad post s :
  accounts_file s = Some (FIELDNAMES :: pre ++ bad :: post) ->
  Forall (λ r, length r = 10%nat) pre ->
  Forall (λ r, r !! 0%nat ≠ Some e) pre ->
  (10 < length bad)%nat ->
  info !! "email" = Some e ->
  info !! "new_password" = Some X ->
  update_account now info s =
    ({| accounts_file := Some (FIELDNAMES :: pre); totp_file := totp_file s |},
     Some ValueError).
Proof.
  intros Hs Hlen Hno Hbad He HX. unfold update_account. rewrite Hs.
  cbn [read_accounts DictReader].
  rewrite filter_app, filter_nonblank by done.
  rewrite filter_cons_True by (destruct bad; [simpl in Hbad; lia | done]).
  rewrite fmap_app, fmap_cons.
  rewrite (update_loop_skip info e pre _ He Hlen Hno).
  set (tl := zip_row FIELDNAMES bad :: (zip_row FIELDNAMES <$> filter _ post)).
  assert (Forall (λ d, is_Some (cells d !! "email")) tl) as Hkeys.
  { subst tl. apply Forall_cons. split.
    - rewrite zip_row_email_key by (destruct bad; [simpl in Hbad; lia | done]).
      by eexists.
    - apply Forall_fmap, Forall_forall. intros r [Hr _]%list_elem_of_filter.
      unfold compose. rewrite zip_row_email_key by done. by eexists. }
  destruct (update_loop_total info e X tl He HX Hkeys) as (u & tl' & Hloop).
  rewrite Hloop.
  pose proof (update_loop_rest _ _ _ _ Hloop) as Hrest.
  subst tl. destruct tl' as [|d' tl'']; [done|].
  rewrite !fmap_cons in Hrest. injection Hrest as Hd' _.
  assert (rest d' ≠ None) as Hd.
  { rewrite Hd'. by apply zip_row_rest_long. }
  destruct (new_account_record info e X He HX) as (dn & -> & _).
  destruct u.
  - by rewrite writerows_stops.
  - rewrite <- app_assoc. cbn [app]. by rewrite writerows_stops.
Qed.

Lemma update_account_long_record_witness :
  let info := sample_change "c@outlook.com" "X" "" in
  accounts_file sample_long_store
    = Some (FIELDNAMES :: sample_rows ++ sample_long :: [sample_last]) ∧
  Forall (λ r, length r = 10%nat) sample_rows ∧
  Forall (λ r, r !! 0%nat ≠ Some "c@outlook.com") sample_rows ∧
  (10 < length sample_long)%nat ∧
  info !! "email" = Some "c@outlook.com" ∧
  info !! "new_password" = Some "X" ∧
  update_account "t" info sample_long_store =
    ({| accounts_file := Some (FIELDNAMES :: sample_rows);
        totp_file := Entries [] |}, Some ValueError).
Proof.
  cbv zeta.
  assert (Forall (λ r, length r = 10%nat) sample_rows) as H1
    by (by repeat constructor).
  assert (Forall (λ r, r !! 0%nat ≠ Some "c@outlook.com") sample_rows) as H2
    by (by repeat constructor).
  split; [reflexivity|]. split; [exact H1|]. split; [exact H2|].
  split; [simpl; lia|]. split; [reflexivity|]. split; [reflexivity|].
  exact (update_account_long_record "t" (sample_change "c@outlook.com" "X" "")
           "c@outlook.com" "X" sample_rows sample_long [sample_last]
           sample_long_store eq_refl H1 H2 (le_n 11) eq_refl eq_refl).
Defined.

End LongRecord.

(** ** Jobs and batches *)

Section Batches.
Import AccountManager Job.
Variable str : exn -> string.
Implicit Types (r : run) (w : world) (s : store).

Lemma get_next_proxy_wf pm :
  ProxyManager.wf pm ->
  ∃ proxy pm',
    ProxyManager.get_next_proxy pm = (inr proxy, pm') ∧
    ProxyManager.wf pm' ∧
    ProxyManager.proxies pm' = ProxyManager.proxies pm.
Proof.
  intros Hwf. pose proof (wf_get_next_proxy pm Hwf) as Hwf'.
  destruct (ProxyManager.proxies pm) as [|p ps] eqn:Hps.
  - exists None, pm. unfold ProxyManager.get_next_proxy. by rewrite Hps.
  - destruct (get_next_proxy_nonempty pm Hwf) as (proxy & _ & Heq);
      [by rewrite Hps|].
    rewrite Heq in Hwf'. eexists _, _. split; [exact Heq|]. split; [done|].
    simpl. by rewrite Hps.
Qed.

Lemma job_result_error r :
  job_result r !! "error" = None ↔ job_saved r.
Proof.
  unfold job_result, job_saved. destruct (driver_start r) as [text|].
  - split; [by rewrite lookup_singleton_eq | by intros [? _]].
  - destruct (signup r) as [text|] eqn:Hs.
    + destruct (create_outlook_account_failure r text Hs) as [-> _].
      split; [done | by intros [_ ?]].
    + by destruct (create_outlook_account_success r Hs) as [-> _].
Qed.

(** One job of the create worker on a manager in a reachable state. *)
Lemma worker_job_wf r w :
  ProxyManager.wf (proxy_manager w) ->
  ∃ proxy pm',
    ProxyManager.get_next_proxy (proxy_manager w) = (inr proxy, pm') ∧
    ProxyManager.wf pm' ∧
    worker_job str r w =
      {| proxy_manager := pm';
         files := if decide (job_saved r)
                  then (save_account (save_time r) (create_outlook_account r)
                          (files w)).1
                  else files w;
         result_queue := result_queue w ++ [job_result r];
         drivers := drivers w ++
                    match driver_start r with
                    | Some _ => []
                    | None => [DriverStarted proxy; DriverQuit]
                    end |}.
Proof.
  intros Hwf.
  destruct (get_next_proxy_wf _ Hwf) as (proxy & pm' & Hnext & Hwf' & _).
  exists proxy, pm'. split; [done|]. split; [done|].
  unfold worker_job, job_result. rewrite Hnext.
  destruct (decide (job_saved r)) as [[Hd Hs]|Hns].
  - rewrite Hd. cbn [log files proxy_manager result_queue drivers].
    destruct (create_outlook_account_success r Hs) as [Herr _].
    rewrite bool_decide_true by done.
    rewrite (save_account_job _ r _ Hs).
    unfold log, put. cbn. by rewrite <- app_assoc.
  - destruct (driver_start r) as [text|] eqn:Hd.
    + unfold put. cbn. by rewrite app_nil_r.
    + cbn [log files proxy_manager result_queue drivers].
      destruct (signup r) as [text|] eqn:Hs; [|by destruct Hns].
      destruct (create_outlook_account_failure r text Hs) as [Herr _].
      rewrite bool_decide_false by (by rewrite Herr).
      unfold log, put. cbn. by rewrite <- app_assoc.
Qed.

Lemma worker_batch (env : nat -> run) (tasks : list nat) w recs :
  ProxyManager.wf (proxy_manager w) ->
  accounts_file (files w) = Some recs ->
  let w' := worker str env tasks w in
  result_queue w' = result_queue w ++ (job_result ∘ env <$> tasks) ∧
  accounts_file (files w') =
    Some (recs ++ (saved_record ∘ env <$> filter (job_saved ∘ env) tasks)) ∧
  (started (drivers w') + quit (drivers w)
   = quit (drivers w') + started (drivers w))%nat ∧
  ProxyManager.proxies (proxy_manager w') = ProxyManager.proxies (proxy_manager w).
Proof.
  revert w recs. induction tasks as [|t tasks IH]; intros w recs Hwf Hfile.
  - cbn. rewrite !app_nil_r. repeat split; try done. lia.
  - cbn [worker]. cbv zeta.
    destruct (worker_job_wf (env t) w Hwf) as (proxy & pm' & Hnext & Hwf' & Hjob).
    destruct (get_next_proxy_wf _ Hwf) as (proxy2 & pm2 & Hnext2 & _ & Hps).
    rewrite Hnext in Hnext2. injection Hnext2 as <- <-.
    pose proof (worker_job_sessions str (env t) w) as Hses.
    rewrite Hjob in Hses |- *.
    set (w1 := {| proxy_manager := pm' |}) in *.
    assert (accounts_file (files w1) =
            Some (recs ++ if decide (job_saved (env t))
                          then [saved_record (env t)] else [])) as Hfile1.
    { subst w1. cbn [files]. destruct (decide (job_saved (env t))) as [[_ Hs]|].
      - rewrite (save_account_job _ _ _ Hs). cbn [fst accounts_file].
        by rewrite Hfile.
      - by rewrite app_nil_r. }
    destruct (IH w1 _ Hwf' Hfile1) as (Hres & Hacc & Hdrv & Hpm).
    rewrite Hres, Hacc, Hpm. subst w1. cbn [result_queue proxy_manager] in *.
    rewrite fmap_cons, filter_cons.
    change ((job_saved ∘ env) t) with (job_saved (env t)).
    repeat split.
    + by rewrite <- app_assoc.
    + destruct (decide (job_saved (env t))); rewrite <- app_assoc; [done|].
      by rewrite app_nil_l.
    + lia.
    + done.
Qed.

(** X16: [create_accounts] with one worker thread, on a manager in a reachable
    state: the list returned has one result per task, in task order; the
    account file holds what it held (or the header, when it was missing)
    followed by the records of exactly the jobs that started a session and
    met no error, in task order; the success count is the number of those
    jobs; every session started was quit; the pool is unchanged. *)
Theorem create_accounts_single_thread (env : nat -> run) (count : nat) pm s :
  ProxyManager.wf pm ->
  let '(results, w') := create_accounts str env count pm s in
  let saved := filter (job_saved ∘ env) (seq 0 count) in
  results = (job_result ∘ env <$> seq 0 count) ∧
  length results = count ∧
  accounts_file (files w') =
    Some (default [FIELDNAMES] (accounts_file s) ++ (saved_record ∘ env <$> saved)) ∧
  success_count results = length saved ∧
  started (drivers w') = quit (drivers w') ∧
  ProxyManager.proxies (proxy_manager w') = ProxyManager.proxies pm.
Proof.
  intros Hwf. unfold create_accounts. cbv zeta.
  set (w := {| proxy_manager := pm |}).
  destruct (worker_batch env (seq 0 count) w
              (default [FIELDNAMES] (accounts_file s)) Hwf)
    as (Hres & Hacc & Hdrv & Hpm).
  { subst w. cbn. by destruct (accounts_file s). }
  rewrite Hres, Hacc, Hpm. subst w. cbn [result_queue drivers app] in *.
  repeat split; try done.
  - by rewrite length_fmap, length_seq.
  - unfold success_count. generalize (seq 0 count) as tasks.
    induction tasks as [|t tasks IH]; [done|].
    rewrite fmap_cons, !filter_cons.
    change ((job_saved ∘ env) t) with (job_saved (env t)).
    change ((job_result ∘ env) t) with (job_result (env t)).
    destruct (decide (job_saved (env t))) as [Hsv|Hsv].
    + rewrite decide_True by (by apply job_result_error). simpl. by rewrite IH.
    + rewrite decide_False by (by rewrite job_result_error). done.
  - unfold started, quit in *. simpl in Hdrv. lia.
Qed.

(** X17: when the WebDriver cannot be started the job's result is the bare
    error: it carries no email and no elapsed time; nothing is saved and no
    session is opened, but the proxy that was allocated is used up. *)
Theorem worker_job_driver_failure r text w (proxy : option string) pm' :
  driver_start r = Some text ->
  ProxyManager.get_next_proxy (proxy_manager w) = (inr proxy, pm') ->
  ∃ result,
    worker_job str r w =
      {| proxy_manager := pm'; files := files w;
         result_queue := result_queue w ++ [result];
         drivers := drivers w |} ∧
    result !! "error" = Some text ∧
    result !! "email" = None ∧ result !! "elapsed_time" = None.
Proof.
  intros Hd Hnext. exists {[ "error" := text ]}.
  unfold worker_job. rewrite Hnext, Hd. done.
Qed.

(** X18: with no proxy configured the job runs all the same: the session is
    started without a proxy and quit, the account the procedure returns is
    the result, and the manager is left as it was. *)
Theorem worker_job_without_proxy r w :
  ProxyManager.proxies (proxy_manager w) = [] ->
  driver_start r = None ->
  proxy_manager (worker_job str r w) = proxy_manager w ∧
  drivers (worker_job str r w) = drivers w ++ [DriverStarted None; DriverQuit] ∧
  result_queue (worker_job str r w) = result_queue w ++ [create_outlook_account r].
Proof.
  intros Hps Hd. unfold worker_job, ProxyManager.get_next_proxy.
  rewrite Hps, Hd. cbn [log files proxy_manager result_queue drivers].
  destruct (signup r) as [text|] eqn:Hs.
  - destruct (create_outlook_account_failure r text Hs) as [Herr _].
    rewrite bool_decide_false by (by rewrite Herr).
    cbn. rewrite <- app_assoc. by destruct (proxy_manager w).
  - destruct (create_outlook_account_success r Hs) as [Herr _].
    rewrite bool_decide_true by done. rewrite (save_account_job _ r _ Hs).
    cbn. rewrite <- app_assoc. by destruct (proxy_manager w).
Qed.

(** X19: a job that succeeds with a TOTP secret appends one account record and
    one TOTP entry that agree: same email, same secret. *)
Theorem worker_job_secured r secret w (proxy : option string) pm' :
  signup r = None ->
  totp_page r = inl secret ->
  secret ≠ "" ->
  driver_start r = None ->
  ProxyManager.get_next_proxy (proxy_manager w) = (inr proxy, pm') ->
  let email := email_name (ident r) +:+ "@outlook.com" in
  files (worker_job str r w) =
    {| accounts_file :=
         Some (default [] (accounts_file (files w)) ++ [saved_record r]);
       totp_file :=
         Entries (read_totp (totp_file (files w)) ++
                    [{| t_email := email; t_secret := secret;
                        t_time := creation_time r |}]) |} ∧
  saved_record r !! 0%nat = Some email ∧
  saved_record r !! 7%nat = Some secret.
Proof.
  intros Hs Hpage Hne Hd Hnext. cbv zeta.
  unfold worker_job. rewrite Hnext, Hd.
  cbn [log files proxy_manager result_queue drivers].
  destruct (create_outlook_account_success r Hs) as [Herr _].
  rewrite bool_decide_true by done. rewrite (save_account_job _ r _ Hs).
  unfold saved_record. rewrite Hpage. cbn [bind_totp].
  rewrite bool_decide_true by done. done.
Qed.

End Batches.

Section BatchSamples.
Import AccountManager Job.

Lemma create_accounts_single_thread_witness :
  let pm := ProxyManager.init ["h1:1080"; "h2:1080"] in
  let s := {| accounts_file := None; totp_file := Missing |} in
  ProxyManager.wf pm ∧
  let '(results, w') := create_accounts sample_str sample_env 4 pm s in
  let saved := filter (job_saved ∘ sample_env) (seq 0 4) in
  results = (job_result ∘ sample_env <$> seq 0 4) ∧
  length results = 4%nat ∧
  accounts_file (files w') =
    Some (default [FIELDNAMES] (accounts_file s) ++
            (saved_record ∘ sample_env <$> saved)) ∧
  success_count results = length saved ∧
  started (drivers w') = quit (drivers w') ∧
  ProxyManager.proxies (proxy_manager w') = ProxyManager.proxies pm.
Proof.
  cbv zeta. split; [apply wf_init|].
  exact (create_accounts_single_thread sample_str sample_env 4
           (ProxyManager.init ["h1:1080"; "h2:1080"])
           {| accounts_file := None; totp_file := Missing |}
           (wf_init _)).
Defined.

Lemma worker_job_driver_failure_witness :
  let r := sample_no_driver in
  driver_start r = Some "SessionNotCreatedException" ∧
  ProxyManager.get_next_proxy (proxy_manager sample_world) =
    (inr (Some "h1:1080"),
     {| ProxyManager.proxies := ["h1:1080"; "h2:1080"];
        ProxyManager.current_index := 1 |}) ∧
  ∃ result,
    worker_job sample_str r sample_world =
      {| proxy_manager :=
           {| ProxyManager.proxies := ["h1:1080"; "h2:1080"];
              ProxyManager.current_index := 1 |};
         files := files sample_world;
         result_queue := result_queue sample_world ++ [result];
         drivers := drivers sample_world |} ∧
    result !! "error" = Some "SessionNotCreatedException" ∧
    result !! "email" = None ∧ result !! "elapsed_time" = None.
Proof.
  cbv zeta. split; [reflexivity|]. split; [reflexivity|].
  exact (worker_job_driver_failure sample_str sample_no_driver
           "SessionNotCreatedException" sample_world (Some "h1:1080") _
           eq_refl eq_refl).
Defined.

Lemma worker_job_without_proxy_witness :
  let w := {| proxy_manager := ProxyManager.init []; files := fresh_store;
              result_queue := []; drivers := [] |} in
  let r := sample_run None (inl "JBSWY3DP") in
  ProxyManager.proxies (proxy_manager w) = [] ∧
  driver_start r = None ∧
  proxy_manager (worker_job sample_str r w) = proxy_manager w ∧
  drivers (worker_job sample_str r w) = drivers w ++ [DriverStarted None; DriverQuit] ∧
  result_queue (worker_job sample_str r w)
  = result_queue w ++ [create_outlook_account r].
Proof.
  cbv zeta. split; [reflexivity|]. split; [reflexivity|].
  exact (worker_job_without_proxy sample_str (sample_run None (inl "JBSWY3DP"))
           {| proxy_manager := ProxyManager.init []; files := fresh_store;
              result_queue := []; drivers := [] |} eq_refl eq_refl).
Defined.

Lemma worker_job_secured_witness :
  let r := sample_run None (inl "JBSWY3DP") in
  signup r = None ∧ totp_page r = inl "JBSWY3DP" ∧ "JBSWY3DP" ≠ "" ∧
  driver_start r = None ∧
  ProxyManager.get_next_proxy (proxy_manager sample_world) =
    (inr (Some "h1:1080"),
     {| ProxyManager.proxies := ["h1:1080"; "h2:1080"];
        ProxyManager.current_index := 1 |}) ∧
  files (worker_job sample_str r sample_world) =
    {| accounts_file :=
         Some (default [] (accounts_file (files sample_world)) ++ [saved_record r]);
       totp_file :=
         Entries (read_totp (totp_file (files sample_world)) ++
                    [{| t_email := "coolalex123@outlook.com";
                        t_secret := "JBSWY3DP";
                        t_time := creation_time r |}]) |} ∧
  saved_record r !! 0%nat = Some "coolalex123@outlook.com" ∧
  saved_record r !! 7%nat = Some "JBSWY3DP".
Proof.
  cbv zeta. split; [reflexivity|]. split; [reflexivity|].
  split; [discriminate|]. split; [reflexivity|]. split; [reflexivity|].
  exact (worker_job_secured sample_str (sample_run None (inl "JBSWY3DP"))
           "JBSWY3DP" sample_world (Some "h1:1080") _
           eq_refl eq_refl ltac:(discriminate) eq_refl eq_refl).
Defined.

End BatchSamples.

(** ** The change-password job *)

Section ChangeJob.
Import AccountManager Job.
Variable str : exn -> string.
Implicit Types (r : change_run) (w : world) (account info : gmap string string).

(** On the creator of the create path, whose [current_account] holds the
    email, [bind_totp] is what the page gives; on a new creator it is
    [""] whatever the page would do. *)
Lemma bind_totp_on_email current_account e page :
  current_account !! "email" = Some e ->
  bind_totp_on current_account page = bind_totp page.
Proof. intros H. unfold bind_totp_on. by rewrite H. Qed.

Lemma bind_totp_on_new page : bind_totp_on ∅ page = "".
Proof. done. Qed.

Lemma change_password_success e old p r :
  c_steps r = None ->
  let info := change_password ∅ e old (Some p) r in
  info !! "error" = None ∧ info !! "email" = Some e ∧
  info !! "new_password" = Some p ∧
  info !! "totp_secret" = Some "".
Proof.
  intros H. unfold change_password. rewrite H, bind_totp_on_new.
  repeat split; by vm_compute.
Qed.

Lemma change_password_failure e old p r text :
  c_steps r = Some text ->
  let info := change_password ∅ e old (Some p) r in
  info !! "error" = Some text ∧ info !! "email" = Some e ∧
  info !! "new_password" = Some p ∧ info !! "totp_secret" = Some "" ∧
  info !! "elapsed_time" = Some (c_elapsed_time r).
Proof.
  intros H. unfold change_password. rewrite H. repeat split; by vm_compute.
Qed.

(** The first row of the changed email after an update of a well-formed
    store. *)
Lemma update_account_first_row now info e X rows s :
  accounts_file s = Some (FIELDNAMES :: rows) ->
  Forall (λ x, length x = 10%nat) rows ->
  info !! "email" = Some e ->
  info !! "new_password" = Some X ->
  (update_account now info s).2 = None ∧
  ∃ d, rows_of e (load_accounts (update_account now info s).1)
       = d :: tail (rows_of e (load_accounts s)) ∧
       row_email d = Some (Some e) ∧ row_password d = Some (Some X).
Proof.
  intros Hs Hrows He HX.
  rewrite (update_account_records now info e X rows s He HX Hs Hrows).
  cbn [fst snd]. split; [done|].
  pose proof (upsert_records_length_10 info rows Hrows) as Hrows'.
  rewrite (load_accounts_wf s rows) by done.
  erewrite (load_accounts_wf _ (upsert_records info rows)); [|reflexivity|done].
  rewrite !rows_of_zip_row by done.
  pose proof (upsert_records_same info e rows He) as Hsame.
  destruct (records_of e rows) as [|r0 others] eqn:Hrec.
  - rewrite Hsame, records_of_snoc, Hrec.
    rewrite decide_True by (unfold minimal_record, get; by rewrite He).
    eexists. split; [reflexivity|].
    destruct (zip_row_fields _ (minimal_record_length info)) as (-> & -> & _).
    unfold minimal_record, get. by rewrite He, HX.
  - destruct Hsame as [-> _]. cbn [fmap list_fmap tail].
    eexists. split; [reflexivity|].
    assert (r0 !! 0%nat = Some e ∧ r0 ∈ rows) as [Hr0 Hin].
    { apply (list_elem_of_filter (λ x, x !! 0%nat = Some e)).
      unfold records_of in Hrec. rewrite Hrec. by left. }
    assert (length r0 = 10%nat) as Hr
      by (by eapply (proj1 (Forall_forall _ _) Hrows)).
    assert (length (overwrite_record info r0) = 10%nat) as Hr'.
    { unfold overwrite_record. destruct (truthy _); by rewrite !length_insert. }
    destruct (zip_row_fields _ Hr') as (-> & -> & _).
    rewrite overwrite_record_email, Hr0.
    destruct (overwrite_record_fields info r0 Hr) as [-> _].
    unfold get. by rewrite HX.
Qed.

(** An update whose [totp_secret] is empty does not touch the TOTP file. *)
Lemma update_account_totp_file now info e X rows s :
  accounts_file s = Some (FIELDNAMES :: rows) ->
  Forall (λ x, length x = 10%nat) rows ->
  info !! "email" = Some e ->
  info !! "new_password" = Some X ->
  truthy (info !! "totp_secret") = false ->
  totp_file (update_account now info s).1 = totp_file s.
Proof.
  intros Hs Hrows He HX Hf.
  rewrite (update_account_records now info e X rows s He HX Hs Hrows).
  cbn [fst totp_file]. by rewrite Hf.
Qed.

(** X20: a change job that meets no error: the worker draws a new password of
    twelve characters with all four classes, the store's first row of the
    account's email (a new minimal row if there was none) carries that
    password after the job, the account info without an error is the one
    result, and the session is quit.  The creator of the job is new, so
    [bind_totp] finds no email in its [current_account] and gives [""]
    whatever the TOTP page does: the result carries an empty totp_secret
    and the TOTP file is left as it was. *)
Theorem worker_change_job_success
    account r w e old rows (proxy : option string) pm' :
  ProxyManager.get_next_proxy (proxy_manager w) = (inr proxy, pm') ->
  c_driver_start r = None ->
  c_steps r = None ->
  account !! "email" = Some e ->
  account !! "password" = Some old ->
  accounts_file (files w) = Some (FIELDNAMES :: rows) ->
  Forall (λ x, length x = 10%nat) rows ->
  let pw := (OutlookCreator.generate_random_password 12 (c_draws r)).1 in
  let info := change_password ∅ e old (Some pw) r in
  let '(w', raised) := worker_change_job str account r w in
  raised = None ∧
  w' = {| proxy_manager := pm';
          files := (update_account (c_write_time r) info (files w)).1;
          result_queue := result_queue w ++ [info];
          drivers := drivers w ++ [DriverStarted proxy; DriverQuit] |} ∧
  info !! "error" = None ∧
  info !! "totp_secret" = Some "" ∧
  totp_file (files w') = totp_file (files w) ∧
  (String.length pw = 12%nat ∧
   OutlookCreator.has_class OutlookCreator.lowercase pw ∧
   OutlookCreator.has_class OutlookCreator.uppercase pw ∧
   OutlookCreator.has_class OutlookCreator.digits pw ∧
   OutlookCreator.has_class OutlookCreator.special pw) ∧
  ∃ d, rows_of e (load_accounts (files w'))
       = d :: tail (rows_of e (load_accounts (files w))) ∧
       row_password d = Some (Some pw).
Proof.
  intros Hnext Hd Hsteps He Hold Hfile Hrows. cbv zeta.
  set (pw := (OutlookCreator.generate_random_password 12 (c_draws r)).1).
  destruct (change_password_success e old pw r Hsteps)
    as (Herr & Hie & Hip & Hsecret).
  destruct (update_account_first_row (c_write_time r)
              (change_password ∅ e old (Some pw) r) e pw rows (files w)
              Hfile Hrows Hie Hip) as (Hnone & d & Hd1 & _ & Hd2).
  pose proof (update_account_totp_file (c_write_time r)
                (change_password ∅ e old (Some pw) r) e pw rows (files w)
                Hfile Hrows Hie Hip) as Htotp.
  rewrite Hsecret in Htotp. specialize (Htotp eq_refl).
  unfold worker_change_job. rewrite Hnext, Hd, He, Hold.
  cbn [log files proxy_manager result_queue drivers]. fold pw.
  rewrite bool_decide_true by done.
  destruct (update_account _ _ (files w)) as [files' raised] eqn:Hupd.
  cbn [fst snd] in *. subst raised.
  split; [done|]. split; [unfold log, put; cbn; by rewrite <- app_assoc|].
  split; [done|]. split; [done|]. split; [done|]. split.
  - pose proof (generate_random_password_spec 12 (c_draws r))
      as (Hlen & Hl & Hu & Hdg & Hsp).
    fold pw in Hlen, Hl, Hu, Hdg, Hsp. repeat split; try done. lia.
  - exists d. by split.
Qed.

(** X21: a login or change step that raises: the store is left as it was (the
    old password stays stored), the result carries the email, the error
    text, the elapsed time and the new password that was never set, and the
    session is quit. *)
Theorem worker_change_job_failure
    account r w e old text (proxy : option string) pm' :
  ProxyManager.get_next_proxy (proxy_manager w) = (inr proxy, pm') ->
  c_driver_start r = None ->
  c_steps r = Some text ->
  account !! "email" = Some e ->
  account !! "password" = Some old ->
  let pw := (OutlookCreator.generate_random_password 12 (c_draws r)).1 in
  let info := change_password ∅ e old (Some pw) r in
  worker_change_job str account r w =
    ({| proxy_manager := pm'; files := files w;
        result_queue := result_queue w ++ [info];
        drivers := drivers w ++ [DriverStarted proxy; DriverQuit] |}, None) ∧
  info !! "email" = Some e ∧ info !! "error" = Some text ∧
  info !! "elapsed_time" = Some (c_elapsed_time r) ∧
  info !! "new_password" = Some pw.
Proof.
  intros Hnext Hd Hsteps He Hold. cbv zeta.
  set (pw := (OutlookCreator.generate_random_password 12 (c_draws r)).1).
  destruct (change_password_failure e old pw r text Hsteps)
    as (Herr & Hie & Hip & _ & Hel).
  unfold worker_change_job. rewrite Hnext, Hd, He, Hold.
  cbn [log files proxy_manager result_queue drivers]. fold pw.
  rewrite bool_decide_false by (by rewrite Herr).
  split; [|done]. unfold log, put. cbn. by rewrite <- app_assoc.
Qed.

(** X22: a task without an [email] key: whatever else happens, the handler of
    the worker raises [KeyError] itself, the exception leaves the worker,
    no result is queued for the task and the files are not touched. *)
Theorem worker_change_job_without_email account r w :
  account !! "email" = None ->
  let '(w', raised) := worker_change_job str account r w in
  raised = Some (KeyError "email") ∧
  result_queue w' = result_queue w ∧
  files w' = files w ∧
  (started (drivers w') + quit (drivers w)
   = quit (drivers w') + started (drivers w))%nat.
Proof.
  intros He. unfold worker_change_job. rewrite He.
  destruct (ProxyManager.get_next_proxy (proxy_manager w)) as [[e|proxy] pm].
  - repeat split; try done. cbn [drivers]. unfold started, quit. lia.
  - destruct (c_driver_start r) as [text|].
    + repeat split; try done. cbn [drivers]. unfold started, quit. lia.
    + repeat split; try done. unfold log. cbn [drivers].
      unfold started, quit. rewrite !filter_app, !length_app.
      rewrite (filter_cons_True (λ e, e ≠ DriverQuit)) by done.
      rewrite (filter_cons_False (λ e, e ≠ DriverQuit)) by (intros H; by apply H).
      rewrite (filter_cons_False (λ e, e = DriverQuit)) by done.
      rewrite (filter_cons_True (λ e, e = DriverQuit)) by done.
      simpl. lia.
Qed.

End ChangeJob.

Section ChangeSamples.
Import AccountManager Job.

Lemma worker_change_job_success_witness :
  let r := sample_change_run None (inl "JBSWY3DP") in
  let w := sample_change_world in
  let pm' := {| ProxyManager.proxies := ["h1:1080"; "h2:1080"];
                ProxyManager.current_index := 1 |} in
  ProxyManager.get_next_proxy (proxy_manager w) = (inr (Some "h1:1080"), pm') ∧
  c_driver_start r = None ∧ c_steps r = None ∧
  sample_account !! "email" = Some "a@outlook.com" ∧
  sample_account !! "password" = Some "p1" ∧
  accounts_file (files w) = Some (FIELDNAMES :: sample_rows) ∧
  Forall (λ x, length x = 10%nat) sample_rows ∧
  let pw := (OutlookCreator.generate_random_password 12 (c_draws r)).1 in
  let '(w', raised) := worker_change_job sample_str sample_account r w in
  raised = None ∧
  (λ res, res !! "totp_secret") <$> result_queue w' = [Some ""] ∧
  totp_file (files w') = totp_file (files w) ∧
  ∃ d, rows_of "a@outlook.com" (load_accounts (files w'))
       = d :: tail (rows_of "a@outlook.com" (load_accounts (files w))) ∧
       row_password d = Some (Some pw).
Proof.
  cbv zeta.
  assert (Forall (λ x, length x = 10%nat) sample_rows) as Hrows
    by (by repeat constructor).
  split; [reflexivity|]. split; [reflexivity|]. split; [reflexivity|].
  split; [reflexivity|]. split; [reflexivity|]. split; [reflexivity|].
  split; [exact Hrows|].
  pose proof (worker_change_job_success sample_str sample_account
                (sample_change_run None (inl "JBSWY3DP"))
                sample_change_world "a@outlook.com" "p1" sample_rows
                (Some "h1:1080") _
                eq_refl eq_refl eq_refl eq_refl eq_refl eq_refl Hrows) as H.
  cbv zeta in H.
  destruct (worker_change_job sample_str sample_account _ sample_change_world)
    as [w' raised].
  destruct H as (Hr & Hw & _ & Hs & Ht & _ & Hd).
  split; [exact Hr|]. split; [|by split].
  rewrite Hw. cbn [result_queue sample_change_world app fmap list_fmap].
  by rewrite Hs.
Defined.

Lemma worker_change_job_failure_witness :
  let r := sample_change_run (Some "TimeoutException") (inl "JBSWY3DP") in
  let w := sample_change_world in
  let pm' := {| ProxyManager.proxies := ["h1:1080"; "h2:1080"];
                ProxyManager.current_index := 1 |} in
  ProxyManager.get_next_proxy (proxy_manager w) = (inr (Some "h1:1080"), pm') ∧
  c_driver_start r = None ∧ c_steps r = Some "TimeoutException" ∧
  sample_account !! "email" = Some "a@outlook.com" ∧
  sample_account !! "password" = Some "p1" ∧
  files (worker_change_job sample_str sample_account r w).1 = files w ∧
  (worker_change_job sample_str sample_account r w).2 = None.
Proof.
  cbv zeta.
  split; [reflexivity|]. split; [reflexivity|]. split; [reflexivity|].
  split; [reflexivity|]. split; [reflexivity|].
  destruct (worker_change_job_failure sample_str sample_account
              (sample_change_run (Some "TimeoutException") (inl "JBSWY3DP"))
              sample_change_world "a@outlook.com" "p1" "TimeoutException"
              (Some "h1:1080") _ eq_refl eq_refl eq_refl eq_refl eq_refl)
    as [-> _].
  by split.
Defined.

Lemma worker_change_job_without_email_witness :
  let account : gmap string string := sample_no_email in
  let r := sample_change_run None (inl "JBSWY3DP") in
  account !! "email" = None ∧
  let '(w', raised) := worker_change_job sample_str account r sample_change_world in
  raised = Some (KeyError "email") ∧
  result_queue w' = result_queue sample_change_world ∧
  files w' = files sample_change_world ∧
  (started (drivers w') + quit (drivers sample_change_world)
   = quit (drivers w') + started (drivers sample_change_world))%nat.
Proof.
  cbv zeta. split; [reflexivity|].
  exact (worker_change_job_without_email sample_str sample_no_email
           (sample_change_run None (inl "JBSWY3DP")) sample_change_world eq_refl).
Defined.

End ChangeSamples.

(** ** Short records and blank lines *)

Section ShortRecords.
Import AccountManager.
Implicit Types (info : gmap string string) (r : list string)
  (rows : list (list string)) (s : store).

Lemma dict_to_list_zip_row_short r :
  r ≠ [] -> (length r <= 10)%nat ->
  dict_to_list (zip_row FIELDNAMES r) = inr (r ++ replicate (10 - length r) "").
Proof.
  intros Hne Hlen. destruct r as [|a0 r]; [done|].
  do 9 (destruct r as [|? r]; [by vm_compute|]).
  destruct r; [by vm_compute | simpl in Hlen; lia].
Qed.

Lemma update_loop_skip_any info e rows :
  info !! "email" = Some e ->
  Forall (λ r, r ≠ []) rows ->
  Forall (λ r, r !! 0%nat ≠ Some e) rows ->
  update_loop info (zip_row FIELDNAMES <$> rows)
  = inr (false, zip_row FIELDNAMES <$> rows).
Proof.
  intros He Hne Hno. induction Hne as [|r rows Hr _ IH]; [done|].
  apply Forall_cons in Hno as [Hr0 Hno].
  rewrite fmap_cons. cbn [update_loop].
  rewrite zip_row_email_key by done. rewrite He.
  rewrite bool_decide_false by congruence. by rewrite (IH Hno).
Qed.

Lemma writerows_short rows (tl : list rowdict) :
  Forall (λ r, r ≠ []) rows ->
  Forall (λ r, (length r <= 10)%nat) rows ->
  writerows ((zip_row FIELDNAMES <$> rows) ++ tl) =
    (((λ r, r ++ replicate (10 - length r) "") <$> rows) ++ (writerows tl).1,
     (writerows tl).2).
Proof.
  intros Hne Hlen. induction Hne as [|r rows Hr _ IH].
  - simpl. by destruct (writerows tl).
  - apply Forall_cons in Hlen as [Hr10 Hlen].
    rewrite !fmap_cons. cbn [app writerows].
    rewrite dict_to_list_zip_row_short by done. by rewrite (IH Hlen).
Qed.

(** X23: an account file with blank lines and records of fewer than ten
    fields: an update for an email the file does not hold writes the file
    back without the blank lines, with every short record filled up to ten
    fields by empty ones, and with the minimal row at the end. *)
Theorem update_account_fills_short_records now info e X rows s :
  accounts_file s = Some (FIELDNAMES :: rows) ->
  Forall (λ r, (length r <= 10)%nat) rows ->
  Forall (λ r, r !! 0%nat ≠ Some e) rows ->
  info !! "email" = Some e ->
  info !! "new_password" = Some X ->
  (update_account now info s).2 = None ∧
  accounts_file (update_account now info s).1 =
    Some (FIELDNAMES ::
          ((λ r, r ++ replicate (10 - length r) "") <$> filter (λ r, r ≠ []) rows)
          ++ [minimal_record info]).
Proof.
  intros Hs Hlen Hno He HX. unfold update_account. rewrite Hs.
  cbn [read_accounts DictReader].
  assert (Forall (λ r, r ≠ []) (filter (λ r, r ≠ []) rows)) as Hne.
  { apply Forall_forall. by intros r [? _]%list_elem_of_filter. }
  assert (Forall (λ r, (length r <= 10)%nat) (filter (λ r, r ≠ []) rows)) as Hlen'.
  { apply Forall_forall. intros r [_ Hin]%list_elem_of_filter.
    by apply (proj1 (Forall_forall _ _) Hlen). }
  assert (Forall (λ r, r !! 0%nat ≠ Some e) (filter (λ r, r ≠ []) rows)) as Hno'.
  { apply Forall_forall. intros r [_ Hin]%list_elem_of_filter.
    by apply (proj1 (Forall_forall _ _) Hno). }
  rewrite (update_loop_skip_any info e _ He Hne Hno').
  destruct (new_account_record info e X He HX) as (d & -> & Hd).
  rewrite (writerows_short _ [d] Hne Hlen'). cbn [writerows]. rewrite Hd.
  cbn [fst snd]. by destruct (truthy _).
Qed.

Lemma update_account_fills_short_records_witness :
  let rows := [["a@outlook.com"; "p1"]; []; ["b@outlook.com"]] in
  let s := {| accounts_file := Some (FIELDNAMES :: rows); totp_file := Entries [] |} in
  let info := sample_change "c@outlook.com" "X" "" in
  accounts_file s = Some (FIELDNAMES :: rows) ∧
  Forall (λ r, (length r <= 10)%nat) rows ∧
  Forall (λ r, r !! 0%nat ≠ Some "c@outlook.com") rows ∧
  info !! "email" = Some "c@outlook.com" ∧
  info !! "new_password" = Some "X" ∧
  (update_account "t" info s).2 = None ∧
  accounts_file (update_account "t" info s).1 =
    Some [FIELDNAMES;
          ["a@outlook.com"; "p1"; ""; ""; ""; ""; ""; ""; ""; ""];
          ["b@outlook.com"; ""; ""; ""; ""; ""; ""; ""; ""; ""];
          ["c@outlook.com"; "X"; ""; ""; ""; ""; ""; "";
           "2025-01-02 10:00:00"; "20.1"]].
Proof.
  cbv zeta.
  assert (Forall (λ r : list string, (length r <= 10)%nat)
            [["a@outlook.com"; "p1"]; []; ["b@outlook.com"]]) as H1
    by (repeat constructor; simpl; lia).
  assert (Forall (λ r : list string, r !! 0%nat ≠ Some "c@outlook.com")
            [["a@outlook.com"; "p1"]; []; ["b@outlook.com"]]) as H2
    by (by repeat constructor).
  split; [reflexivity|]. split; [exact H1|]. split; [exact H2|].
  split; [reflexivity|]. split; [reflexivity|].
  destruct (update_account_fills_short_records "t"
              (sample_change "c@outlook.com" "X" "") "c@outlook.com" "X"
              [["a@outlook.com"; "p1"]; []; ["b@outlook.com"]]
              {| accounts_file :=
                   Some (FIELDNAMES :: [["a@outlook.com"; "p1"]; []; ["b@outlook.com"]]);
                 totp_file := Entries [] |}
              eq_refl H1 H2 eq_refl eq_refl) as [Hnone Hfile].
  split; [exact Hnone|]. rewrite Hfile. by vm_compute.
Defined.

End ShortRecords.
(** ** The worker threads of a batch *)

Section PoolFacts.
Import AccountManager Job.
Context {task : Type}.
Variable job : task -> world -> world * option exn.
Implicit Types (w : world) (p q : pool task).


Lemma step_thread_step p q : step job p q -> ∃ i, thread_step job i p = Some q.
Proof.
  intros [i p' Hi Hq|i p' Hi Hq|i p' t rest Hi Hq]; exists i;
    unfold thread_step; rewrite Hi.
  - by rewrite Hq.
  - by destruct (task_queue p').
  - by rewrite Hq.
Qed.





(** A pool without threads does not move. *)
Lemma steps_no_thread p q : threads p = [] -> steps job p q -> q = p.
Proof.
  intros Hp. induction 1 as [p|p q q' _ IH Hstep]; [done|].
  specialize (IH Hp). subst q.
  destruct Hstep as [i q Hi _|i q Hi _|i q t rest Hi _]; by rewrite Hp in Hi.
Qed.

(** The tasks whose job queues one result, leaves no session open and
    lets no exception out of the worker function. *)
Variable good : task -> Prop.
Hypothesis job_good : ∀ t w, good t ->
  (job t w).2 = None ∧
  length (result_queue (job t w).1) = S (length (result_queue w)) ∧
  (started (drivers (job t w).1) + quit (drivers w)
   = quit (drivers (job t w).1) + started (drivers w))%nat.






End PoolFacts.

Section Batches.
Import AccountManager Job.
Variable str : exn -> string.
Variable env : nat -> run.
Variable cenv : nat -> change_run.
Implicit Types (w : world) (account : gmap string string).









End Batches.

Section PoolSamples.
Import AccountManager Job.


(** The two sample batches under their schedules, evaluated: every thread
    has ended, the queue is empty, and each task has its result; the jobs
    that met a timeout have it as their error. *)
Example sample_pools_result :
  (λ q : pool nat,
     (joined q, task_queue q, threads q,
      (λ res, res !! "error") <$> result_queue (shared q),
      started (drivers (shared q)), quit (drivers (shared q)))) <$>
    run_schedule (create_job sample_str sample_env) sample_schedule
      (start 4 2 sample_change_world)
  = Some (true, [], [Returned; Returned],
          [Some "TimeoutException"; None; Some "TimeoutException"; None],
          4%nat, 4%nat) ∧
  (λ q : pool (nat * gmap string string),
     (joined q, task_queue q, threads q,
      (λ res, (res !! "email", res !! "error")) <$> result_queue (shared q),
      started (drivers (shared q)), quit (drivers (shared q)))) <$>
    run_schedule (change_job sample_str sample_change_env)
      sample_change_schedule (start_change sample_accounts 2 sample_change_world)
  = Some (true, [], [Returned; Returned],
          [(Some "a@outlook.com", None);
           (Some "b@outlook.com", Some "TimeoutException")],
          2%nat, 2%nat).
Proof. by vm_compute. Qed.


End PoolSamples.
